(** * NFC capability probe: the two [App] components and their [checkNfc]

    The repository has two variants of one React Native component.  Both run
    an asynchronous function [checkNfc] from a mount effect:

    - the retry variant (module [Retry]) loads the NFC manager lazily through
      [initializeNfcManager], guards every state update with [isMounted],
      and re-runs [checkNfc] from a 2000 ms timer, at most [maxRetries]
      times, when the outermost [catch] is reached;
    - the simple variant (module [Simple]) loads the manager when the module
      is loaded, never retries and has no liveness flag.

    [checkNfc] is an [async] function: it runs synchronously up to an
    [await], is suspended there, and is resumed by the event loop when the
    awaited promise settles.  It is embedded as a term of a small resumption
    monad, [Async], whose nodes are the reads and writes of the mutable
    variables, the synchronous [require], and the suspension points.  Two
    interpreters are given: [advance] runs one event-loop turn (up to the next
    suspension), [finish] runs a task to its end against one provider.

    Modelling choices, fixed here once:
    - a value thrown by the provider or by [require] is an [Error] object
      whose [message] is a string;
    - [isSupported()] and [isEnabled()] resolve to booleans;
    - [console.log] calls are not modelled;
    - [setNfcState] applies its update at once, and is recorded in the log
      with the state it produces. *)

From Stdlib Require Import String List Bool ZArith Lia PeanoNat.
From ExtLib Require Import Structures.Monad Structures.MonadExc.
Import ListNotations.
Import MonadNotation.
Local Open Scope monad_scope.
Local Open Scope string_scope.
Local Open Scope Z_scope.

Set Implicit Arguments.

(** ** JavaScript values shared by the two variants *)

(** [new Error(message)]; only [message] is ever read. *)
Record JsError : Type := Error { message : string }.

(** A settled promise (or the outcome of a synchronous call that may throw). *)
Inductive Settled (A : Type) : Type :=
| Resolved (a : A)
| Rejected (e : JsError).
Arguments Resolved {A} a.
Arguments Rejected {A} e.

(** The default export of [react-native-nfc-manager]. *)
Inductive Manager : Type := NativeNfcManager.

(** The three provider methods that [checkNfc] awaits. *)
Inductive Method : Type := IsSupported | IsEnabled | Start.

Definition value (q : Method) : Type :=
  match q with
  | IsSupported => bool
  | IsEnabled => bool
  | Start => unit
  end.

(** What the outside world answers during one run of [checkNfc]:
    [require("react-native-nfc-manager").default] ([None] is an [undefined]
    default export) and the three provider promises. *)
Record Provider : Type := mkProvider {
  require_result : Settled (option Manager);
  isSupported_result : Settled bool;
  isEnabled_result : Settled bool;
  start_result : Settled unit
}.

Definition respond (p : Provider) (q : Method) : Settled (value q) :=
  match q return Settled (value q) with
  | IsSupported => isSupported_result p
  | IsEnabled => isEnabled_result p
  | Start => start_result p
  end.

(** [s || d] on strings: the empty string is falsy. *)
Definition or_default (s d : string) : string :=
  match s with
  | EmptyString => d
  | String _ _ => s
  end.

(** A timer handle returned by [setTimeout]: a positive number, hence truthy. *)
Definition TimerId : Type := positive.

(** Calls that leave the component, in the order they are made.  [St] is the
    type of the component state. *)
Inductive Event (St : Type) : Type :=
| EvRequire
| EvCall (q : Method)
| EvSetNfcState (s : St)
| EvSetTimeout (id : TimerId) (delay : Z)
| EvClearTimeout (id : TimerId)
| EvCancel.
Arguments EvRequire {St}.
Arguments EvCall {St} q.
Arguments EvSetNfcState {St} s.
Arguments EvSetTimeout {St} id delay.
Arguments EvClearTimeout {St} id.
Arguments EvCancel {St}.

(** ** The resumption monad *)

Section AsyncMonad.

(** The mutable store the code runs against. *)
Variable W : Type.

Inductive Async (A : Type) : Type :=
| Ret (a : A)
| Throw (e : JsError)
| Read (k : W -> Async A)
| Update (f : W -> W) (k : Async A)
| RequireModule (k : Settled (option Manager) -> Async A)
| Pause (k : Async A)
| Await (q : Method) (k : Settled (value q) -> Async A).

Arguments Ret {A} a.
Arguments Throw {A} e.
Arguments Read {A} k.
Arguments Update {A} f k.
Arguments RequireModule {A} k.
Arguments Pause {A} k.
Arguments Await {A} q k.

Fixpoint abind {A B} (m : Async A) (f : A -> Async B) : Async B :=
  match m with
  | Ret a => f a
  | Throw e => Throw e
  | Read k => Read (fun w => abind (k w) f)
  | Update g k => Update g (abind k f)
  | RequireModule k => RequireModule (fun r => abind (k r) f)
  | Pause k => Pause (abind k f)
  | Await q k => Await q (fun r => abind (k r) f)
  end.

(** [try { body } catch (e) { handler e }]. *)
Fixpoint try_catch {A} (body : Async A) (handler : JsError -> Async A)
  : Async A :=
  match body with
  | Ret a => Ret a
  | Throw e => handler e
  | Read k => Read (fun w => try_catch (k w) handler)
  | Update g k => Update g (try_catch k handler)
  | RequireModule k => RequireModule (fun r => try_catch (k r) handler)
  | Pause k => Pause (try_catch k handler)
  | Await q k => Await q (fun r => try_catch (k r) handler)
  end.

#[global] Instance Monad_Async : Monad Async :=
  {| ret := fun _ a => Ret a; bind := fun _ _ m f => abind m f |}.

#[global] Instance MonadExc_Async : MonadExc JsError Async :=
  {| raise := fun _ e => Throw e; catch := fun _ m h => try_catch m h |}.

Definition get_world : Async W := Read (fun w => Ret w).
Definition modify_world (f : W -> W) : Async unit := Update f (Ret tt).

(** Deliver a settled promise to the code that awaits it. *)
Definition deliver {A} (r : Settled A) : Async A :=
  match r with
  | Resolved a => Ret a
  | Rejected e => Throw e
  end.

(** [await manager.q()]. *)
Definition call (q : Method) : Async (value q) := Await q deliver.

(** [require("react-native-nfc-manager").default], synchronous. *)
Definition require_module : Async (option Manager) := RequireModule deliver.

(** The promise an [async] function's body settles. *)
Definition settle {A} (body : Async A) : Async (Settled A) :=
  try_catch (abind body (fun a => Ret (Resolved a)))
            (fun e => Ret (Rejected e)).

(** [await f()] for an [async] function [f] whose body has no [await]: the
    body runs at once, the caller is suspended, then receives the outcome. *)
Definition await_async {A} (body : Async A) : Async A :=
  abind (settle body) (fun r => Pause (deliver r)).

(** *** Interpreters *)

(** How a call that leaves the component is written to the log. *)
Variable St : Type.
Variable note : Event St -> W -> W.

(** One event-loop turn: run until the task ends or is suspended.  The
    provider method is invoked (and logged) when the [await] is reached. An
    exception that leaves the task rejects its promise, which nobody
    observes. *)
Fixpoint advance (p : Provider) (t : Async unit) (w : W)
  : W * option (Async unit) :=
  match t with
  | Ret _ => (w, None)
  | Throw _ => (w, None)
  | Read k => advance p (k w) w
  | Update f k => advance p k (f w)
  | RequireModule k => advance p (k (require_result p)) (note EvRequire w)
  | Pause k => (w, Some (Pause k))
  | Await q k => (note (EvCall q) w, Some (Await q k))
  end.

(** The awaited promise settles: resume a suspended task. *)
Definition resume (p : Provider) (t : Async unit) (w : W)
  : W * option (Async unit) :=
  match t with
  | Pause k => advance p k w
  | Await q k => advance p (k (respond p q)) w
  | _ => advance p t w
  end.

(** A task run to its end, every awaited promise settling as [p] says. *)
Fixpoint finish (p : Provider) (t : Async unit) (w : W) : W :=
  match t with
  | Ret _ => w
  | Throw _ => w
  | Read k => finish p (k w) w
  | Update f k => finish p k (f w)
  | RequireModule k => finish p (k (require_result p)) (note EvRequire w)
  | Pause k => finish p k w
  | Await q k => finish p (k (respond p q)) (note (EvCall q) w)
  end.

(** [suspensions p t w] is the number of turns after the first that the
    task takes to end. *)
Fixpoint suspensions (p : Provider) (t : Async unit) (w : W) : nat :=
  match t with
  | Ret _ => O
  | Throw _ => O
  | Read k => suspensions p (k w) w
  | Update f k => suspensions p k (f w)
  | RequireModule k =>
      suspensions p (k (require_result p)) (note EvRequire w)
  | Pause k => Datatypes.S (suspensions p k w)
  | Await q k =>
      Datatypes.S (suspensions p (k (respond p q)) (note (EvCall q) w))
  end.

(** [turns n p] settles the awaited promise [n] times. *)
Fixpoint turns (n : nat) (p : Provider) (c : W * option (Async unit))
  : W * option (Async unit) :=
  match n with
  | O => c
  | Datatypes.S n' =>
      match snd c with
      | Some t => turns n' p (resume p t (fst c))
      | None => c
      end
  end.

(** A turn-by-turn specification of a task.  [R suspended w0 w] relates the
    store [w0] a turn starts in to the store [w] it ends in; [suspended]
    tells whether the turn ended at an [await] or at the end of the task.
    Between two turns the store may have been changed by others, so the
    next turn starts in an arbitrary store. *)
Fixpoint turns_within (R : bool -> W -> W -> Prop) {A} (t : Async A)
         (w0 w : W) : Prop :=
  match t with
  | Ret _ => R false w0 w
  | Throw _ => R false w0 w
  | Read k => turns_within R (k w) w0 w
  | Update f k => turns_within R k w0 (f w)
  | RequireModule k => forall r, turns_within R (k r) w0 (note EvRequire w)
  | Pause k => R true w0 w /\ forall w1, turns_within R k w1 w1
  | Await q k =>
      R true w0 (note (EvCall q) w)
      /\ forall r w1, turns_within R (k r) w1 w1
  end.

(** The same for a task that is suspended. *)
Definition task_within (R : bool -> W -> W -> Prop) (t : Async unit)
  : Prop :=
  match t with
  | Pause k => forall w1, turns_within R k w1 w1
  | Await q k => forall r w1, turns_within R (k r) w1 w1
  | _ => forall w1, turns_within R t w1 w1
  end.

Definition suspended (t : option (Async unit)) : bool :=
  match t with Some _ => true | None => false end.

End AsyncMonad.

Arguments Ret {W A} a.
Arguments Throw {W A} e.
Arguments Read {W A} k.
Arguments Update {W A} f k.
Arguments RequireModule {W A} k.
Arguments Pause {W A} k.
Arguments Await {W A} q k.

(** ** The retry variant *)

Module Retry.

(** The object kept by [useState]. *)
Record NfcState : Type := mkNfcState {
  isSupported : bool;
  isEnabled : bool;
  error : option string;
  loading : bool;
  platform : string;
  isExpoGo : bool
}.

(** [{...prev, isSupported, isEnabled, error, loading}]. *)
Definition spread (prev : NfcState) (sup en : bool) (err : option string)
           (ld : bool) : NfcState :=
  {| isSupported := sup; isEnabled := en; error := err; loading := ld;
     platform := platform prev; isExpoGo := isExpoGo prev |}.

(** Everything mutable that [checkNfc] and the cleanup can reach: the
    module-level variables, the component's state and ref, the variables
    of the effect closure, and the host's armed timers and call log. *)
Record World : Type := mkWorld {
  NfcManager : option Manager;
  isInitializing : bool;
  initPromise : option (Settled (option Manager));
  nfcState : NfcState;
  retryCount : Z;
  isMounted : bool;
  retryTimeout : option TimerId;
  timers : list TimerId;
  nextTimer : TimerId;
  log : list (Event NfcState)
}.

Definition set_NfcManager (v : option Manager) (w : World) : World :=
  mkWorld v (isInitializing w) (initPromise w) (nfcState w) (retryCount w)
          (isMounted w) (retryTimeout w) (timers w) (nextTimer w) (log w).

Definition set_isInitializing (v : bool) (w : World) : World :=
  mkWorld (NfcManager w) v (initPromise w) (nfcState w) (retryCount w)
          (isMounted w) (retryTimeout w) (timers w) (nextTimer w) (log w).

Definition set_initPromise (v : option (Settled (option Manager)))
           (w : World) : World :=
  mkWorld (NfcManager w) (isInitializing w) v (nfcState w) (retryCount w)
          (isMounted w) (retryTimeout w) (timers w) (nextTimer w) (log w).

Definition set_nfcState (v : NfcState) (w : World) : World :=
  mkWorld (NfcManager w) (isInitializing w) (initPromise w) v (retryCount w)
          (isMounted w) (retryTimeout w) (timers w) (nextTimer w) (log w).

Definition set_retryCount (v : Z) (w : World) : World :=
  mkWorld (NfcManager w) (isInitializing w) (initPromise w) (nfcState w) v
          (isMounted w) (retryTimeout w) (timers w) (nextTimer w) (log w).

Definition set_isMounted (v : bool) (w : World) : World :=
  mkWorld (NfcManager w) (isInitializing w) (initPromise w) (nfcState w)
          (retryCount w) v (retryTimeout w) (timers w) (nextTimer w) (log w).

Definition set_retryTimeout (v : option TimerId) (w : World) : World :=
  mkWorld (NfcManager w) (isInitializing w) (initPromise w) (nfcState w)
          (retryCount w) (isMounted w) v (timers w) (nextTimer w) (log w).

Definition set_timers (v : list TimerId) (w : World) : World :=
  mkWorld (NfcManager w) (isInitializing w) (initPromise w) (nfcState w)
          (retryCount w) (isMounted w) (retryTimeout w) v (nextTimer w)
          (log w).

Definition set_nextTimer (v : TimerId) (w : World) : World :=
  mkWorld (NfcManager w) (isInitializing w) (initPromise w) (nfcState w)
          (retryCount w) (isMounted w) (retryTimeout w) (timers w) v (log w).

(** The log grows at its end. *)
Definition note (e : Event NfcState) (w : World) : World :=
  mkWorld (NfcManager w) (isInitializing w) (initPromise w) (nfcState w)
          (retryCount w) (isMounted w) (retryTimeout w) (timers w)
          (nextTimer w) (log w ++ [e]).

Definition maxRetries : Z := 3.

Definition expo_go_message : string :=
  "NFC is not supported in Expo Go. Please use a development build.".
Definition no_manager_message : string :=
  "Failed to initialize NFC Manager".
Definition no_hardware_message : string :=
  "This device does not have NFC hardware".
Definition not_enabled_message : string :=
  "NFC is not enabled. Please enable NFC in your device settings.".
Definition status_prefix : string := "Failed to check NFC status: ".
Definition start_prefix : string := "Failed to start NFC: ".
Definition support_default : string := "Failed to check NFC support".

(** [setNfcState(prev => f(prev))]. *)
Definition setNfcState (f : NfcState -> NfcState) : Async World unit :=
  modify_world (fun w =>
    note (EvSetNfcState (f (nfcState w))) (set_nfcState (f (nfcState w)) w)).

(** [if (isMounted) { body }]. *)
Definition if_mounted (body : Async World unit) : Async World unit :=
  w <- get_world World ;;
  if isMounted w then body else ret tt.

(** [setTimeout(checkNfc, delay)]: the host arms a timer and returns its
    handle.  The callback is always [checkNfc]. *)
Definition setTimeout (delay : Z) : Async World TimerId :=
  w <- get_world World ;;
  modify_world (fun w =>
    note (EvSetTimeout (nextTimer w) delay)
         (set_nextTimer (Pos.succ (nextTimer w))
                        (set_timers (timers w ++ [nextTimer w]) w))) ;;
  ret (nextTimer w).

(** [clearTimeout(id)]. *)
Definition clearTimeout (id : TimerId) (w : World) : World :=
  note (EvClearTimeout id)
       (set_timers (filter (fun t => negb (Pos.eqb t id)) (timers w)) w).

Section Component.

(** The module constant [isExpoGo] and [Platform.OS]. *)
Variable expoGo : bool.
Variable platformOS : string.

(** The body of [initializeNfcManager]. *)
Definition initializeNfcManager : Async World (option Manager) :=
  if expoGo then raise (Error expo_go_message)
  else
    w <- get_world World ;;
    match NfcManager w with
    | Some m => ret (Some m)
    | None =>
        if isInitializing w then
          match initPromise w with
          | Some r => deliver World r
          | None => ret None
          end
        else
          modify_world (set_isInitializing true) ;;
          r <- settle (require_module World) ;;
          match r with
          | Resolved m => modify_world (set_NfcManager m)
          | Rejected _ => ret tt
          end ;;
          modify_world (set_isInitializing false) ;;
          modify_world (set_initPromise (Some r)) ;;
          deliver World r
    end.

Definition checkNfc : Async World unit :=
  if expoGo then
    if_mounted
      (setNfcState (fun prev =>
         spread prev false false (Some expo_go_message) false))
  else
    catch
      (manager <- await_async initializeNfcManager ;;
       match manager with
       | None => raise (Error no_manager_message)
       | Some _ =>
           hasNfc <- call World IsSupported ;;
           if negb hasNfc then
             if_mounted
               (setNfcState (fun prev =>
                  spread prev false false (Some no_hardware_message)
                         false))
           else
             catch
               (enabled <- call World IsEnabled ;;
                if negb enabled then
                  if_mounted
                    (setNfcState (fun prev =>
                       spread prev true false (Some not_enabled_message)
                              false))
                else
                  catch
                    (call World Start ;;
                     if_mounted
                       (setNfcState (fun prev =>
                          spread prev true true None false)) ;;
                     modify_world (set_retryCount 0))
                    (fun startError =>
                       if_mounted
                         (setNfcState (fun prev =>
                            spread prev true true
                              (Some (start_prefix ++ message startError))
                              false))))
               (fun enableError =>
                  if_mounted
                    (setNfcState (fun prev =>
                       spread prev true false
                         (Some (status_prefix ++ message enableError))
                         false)))
       end)
      (fun error =>
         if_mounted
           (setNfcState (fun prev =>
              spread prev false false
                (Some (or_default (message error) support_default))
                false) ;;
            w <- get_world World ;;
            if negb expoGo && (retryCount w <? maxRetries) then
              modify_world (fun w => set_retryCount (retryCount w + 1) w) ;;
              id <- setTimeout 2000 ;;
              modify_world (set_retryTimeout (Some id))
            else ret tt)).

(** The function returned by the effect. *)
Definition cleanup (w : World) : World :=
  let w1 := set_isMounted false w in
  let w2 := match retryTimeout w1 with
            | Some id => clearTimeout id w1
            | None => w1
            end in
  match NfcManager w2 with
  | Some _ => note EvCancel w2
  | None => w2
  end.

(** The store when the effect starts: [loaded] is what the module-level
    [NfcManager] holds by then. *)
Definition initial_world (loaded : option Manager) : World :=
  {| NfcManager := loaded;
     isInitializing := false;
     initPromise := None;
     nfcState := {| isSupported := false; isEnabled := false;
                    error := None; loading := true;
                    platform := platformOS; isExpoGo := expoGo |};
     retryCount := 0;
     isMounted := true;
     retryTimeout := None;
     timers := [];
     nextTimer := 1%positive;
     log := [] |}.

(** *** Uninterrupted runs *)

(** One run of [checkNfc] to its end. *)
Definition attempt (p : Provider) (w : World) : World :=
  finish note p checkNfc w.

(** The armed timer fires. *)
Definition fire (w : World) : World := set_timers (tl (timers w)) w.

(** [checkNfc] and its timer-driven re-runs while the component stays
    mounted; the [i]-th run is answered by [env i].  [budget] bounds the
    number of re-runs. *)
Fixpoint probe (budget : nat) (env : nat -> Provider) (i : nat)
         (w : World) : World :=
  let w' := attempt (env i) w in
  match budget, timers w' with
  | S b, _ :: _ => probe b env (S i) (fire w')
  | _, _ => w'
  end.

(** The whole probe from mount. *)
Definition run (env : nat -> Provider) (loaded : option Manager) : World :=
  probe (Z.to_nat maxRetries) env 0 (initial_world loaded).

(** *** The event loop *)

Record Machine : Type := mkMachine {
  world : World;
  task : option (Async World unit)
}.

Definition start_task (p : Provider) (t : Async World unit) (w : World)
  : Machine :=
  let (w', t') := advance note p t w in mkMachine w' t'.

(** What the event loop can do next: the awaited promise settles, the
    armed timer fires, or React unmounts the component.  A turn that
    runs code is given the provider that answers it. *)
Inductive Input : Type :=
| Settle (p : Provider)
| Fire (p : Provider)
| Unmount.

Definition step (m : Machine) (i : Input) : Machine :=
  match i with
  | Settle p =>
      match task m with
      | Some t =>
          let (w', t') := resume note p t (world m) in mkMachine w' t'
      | None => m
      end
  | Fire p =>
      match task m, timers (world m) with
      | None, _ :: _ => start_task p checkNfc (fire (world m))
      | _, _ => m
      end
  | Unmount =>
      if isMounted (world m)
      then mkMachine (cleanup (world m)) (task m)
      else m
  end.

Definition mount (p : Provider) (loaded : option Manager) : Machine :=
  start_task p checkNfc (initial_world loaded).

Definition exec (m : Machine) (ins : list Input) : Machine :=
  fold_left step ins m.

(** The machines the component can be in. *)
Inductive reachable : Machine -> Prop :=
| reach_mount p loaded : reachable (mount p loaded)
| reach_step m i : reachable m -> reachable (step m i).

End Component.

End Retry.

(** ** The simple variant *)

Module Simple.

(** The object kept by [useState]; every update replaces it whole. *)
Record NfcState : Type := mkNfcState {
  isSupported : bool;
  isEnabled : bool;
  error : option string;
  loading : bool
}.

(** The module-level [NfcManager], the component state, whether React has
    run the effect's cleanup (the code keeps no such flag), and the log. *)
Record World : Type := mkWorld {
  NfcManager : option Manager;
  nfcState : NfcState;
  unmounted : bool;
  log : list (Event NfcState)
}.

Definition note (e : Event NfcState) (w : World) : World :=
  mkWorld (NfcManager w) (nfcState w) (unmounted w) (log w ++ [e]).

Definition no_module_message : string :=
  "NFC module not available. Please use a development build.".
Definition status_prefix : string := "Failed to check NFC status: ".
Definition start_prefix : string := "Failed to start NFC: ".
Definition unknown_default : string := "Unknown NFC error".

(** The [try { NfcManager = require(...).default } catch ...] that runs
    when the module is loaded. *)
Definition load_module (r : Settled (option Manager)) : option Manager :=
  match r with
  | Resolved m => m
  | Rejected _ => None
  end.

(** [setNfcState({...})]. *)
Definition setNfcState (s : NfcState) : Async World unit :=
  modify_world (fun w =>
    note (EvSetNfcState s)
         (mkWorld (NfcManager w) s (unmounted w) (log w))).

(** How a block inside the function ends: it falls through with a value,
    or it has executed [return]. *)
Inductive Flow (A : Type) : Type :=
| Continue (a : A)
| Return.
Arguments Continue {A} a.
Arguments Return {A}.

Definition checkNfc : Async World unit :=
  w <- get_world World ;;
  match NfcManager w with
  | None =>
      setNfcState (mkNfcState false false (Some no_module_message) false)
  | Some _ =>
      catch
        (supported <- call World IsSupported ;;
         flow <- (if (supported : bool) then
                    catch
                      (enabled <- call World IsEnabled ;;
                       if (enabled : bool) then
                         catch
                           (call World Start ;;
                            ret (Continue enabled))
                           (fun startError =>
                              setNfcState
                                (mkNfcState supported enabled
                                   (Some (start_prefix
                                          ++ message startError))
                                   false) ;;
                              ret Return)
                       else ret (Continue enabled))
                      (fun enableError =>
                         setNfcState
                           (mkNfcState supported false
                              (Some (status_prefix ++ message enableError))
                              false) ;;
                         ret Return)
                  else ret (Continue false)) ;;
         match flow with
         | Return => ret tt
         | Continue enabled =>
             setNfcState (mkNfcState supported enabled None false)
         end)
        (fun error =>
           setNfcState
             (mkNfcState false false
                (Some (or_default (message error) unknown_default))
                false))
  end.

(** The function returned by the effect. *)
Definition cleanup (w : World) : World :=
  let w1 := mkWorld (NfcManager w) (nfcState w) true (log w) in
  match NfcManager w1 with
  | Some _ => note EvCancel w1
  | None => w1
  end.

Definition initial_world (r : Settled (option Manager)) : World :=
  {| NfcManager := load_module r;
     nfcState := mkNfcState false false None true;
     unmounted := false;
     log := [] |}.

(** One run of [checkNfc] to its end. *)
Definition attempt (p : Provider) (w : World) : World :=
  finish note p checkNfc w.

(** The whole probe from mount; the module was loaded with [r]. *)
Definition run (p : Provider) (r : Settled (option Manager)) : World :=
  attempt p (initial_world r).

Record Machine : Type := mkMachine {
  world : World;
  task : option (Async World unit)
}.

Inductive Input : Type :=
| Settle (p : Provider)
| Unmount.

Definition step (m : Machine) (i : Input) : Machine :=
  match i with
  | Settle p =>
      match task m with
      | Some t =>
          let (w', t') := resume note p t (world m) in mkMachine w' t'
      | None => m
      end
  | Unmount =>
      if unmounted (world m)
      then m
      else mkMachine (cleanup (world m)) (task m)
  end.

Definition mount (p : Provider) (r : Settled (option Manager)) : Machine :=
  let (w', t') := advance note p checkNfc (initial_world r) in
  mkMachine w' t'.

Definition exec (m : Machine) (ins : list Input) : Machine :=
  fold_left step ins m.

Inductive reachable : Machine -> Prop :=
| reach_mount p r : reachable (mount p r)
| reach_step m i : reachable m -> reachable (step m i).

End Simple.

(** ** The specification's view of one run

    The specification describes a run as a walk through three steps in a
    fixed order, stopped by the first step that fails or answers no.  The
    definitions below follow its words; the theorems compare them with the
    code. *)

Inductive Verdict : Type :=
| Ready
| SupportFailed (e : JsError)
| Unsupported
| StatusFailed (e : JsError)
| Disabled
| StartFailed (e : JsError).

(** [acquired] is the outcome of obtaining the manager, which precedes the
    first step; a failure there enters the same failure path as a failure of
    [isSupported()]. *)
Definition first_stop (acquired : Settled Manager) (p : Provider) : Verdict :=
  match acquired with
  | Rejected e => SupportFailed e
  | Resolved _ =>
      match isSupported_result p with
      | Rejected e => SupportFailed e
      | Resolved false => Unsupported
      | Resolved true =>
          match isEnabled_result p with
          | Rejected e => StatusFailed e
          | Resolved false => Disabled
          | Resolved true =>
              match start_result p with
              | Rejected e => StartFailed e
              | Resolved _ => Ready
              end
          end
      end
  end.

(** The provider methods invoked before a run stops with the given verdict,
    when the manager was obtained. *)
Definition calls_before (v : Verdict) : list Method :=
  match v with
  | SupportFailed _ | Unsupported => [IsSupported]
  | StatusFailed _ | Disabled => [IsSupported; IsEnabled]
  | StartFailed _ | Ready => [IsSupported; IsEnabled; Start]
  end.

Definition is_init_failure (v : Verdict) : bool :=
  match v with SupportFailed _ => true | _ => false end.

(** The methods named by the [EvCall] entries of a log. *)
Fixpoint calls_of {St} (l : list (Event St)) : list Method :=
  match l with
  | [] => []
  | EvCall q :: l' => q :: calls_of l'
  | _ :: l' => calls_of l'
  end.

(** The delays of the [EvSetTimeout] entries of a log. *)
Fixpoint delays_of {St} (l : list (Event St)) : list Z :=
  match l with
  | [] => []
  | EvSetTimeout _ d :: l' => d :: delays_of l'
  | _ :: l' => delays_of l'
  end.

(** The states of the [EvSetNfcState] entries of a log. *)
Fixpoint states_of {St} (l : list (Event St)) : list St :=
  match l with
  | [] => []
  | EvSetNfcState s :: l' => s :: states_of l'
  | _ :: l' => states_of l'
  end.

Module RetrySpec.
Import Retry.

(** What [await initializeNfcManager()] and the [!manager] test yield, the
    module-level [NfcManager] holding [loaded]. *)
Definition acquired (loaded : option Manager) (p : Provider)
  : Settled Manager :=
  match loaded with
  | Some m => Resolved m
  | None =>
      match require_result p with
      | Rejected e => Rejected e
      | Resolved None => Rejected (Error no_manager_message)
      | Resolved (Some m) => Resolved m
      end
  end.

(** The module-level [NfcManager] after a run answered by [p]. *)
Definition cached (loaded : option Manager) (p : Provider)
  : option Manager :=
  match loaded with
  | Some m => Some m
  | None =>
      match require_result p with
      | Resolved m => m
      | Rejected _ => None
      end
  end.

Definition verdict (loaded : option Manager) (p : Provider) : Verdict :=
  first_stop (acquired loaded p) p.

(** The [error] string that displays a verdict. *)
Definition reported (v : Verdict) : option string :=
  match v with
  | Ready => None
  | SupportFailed e => Some (or_default (message e) support_default)
  | Unsupported => Some no_hardware_message
  | StatusFailed e => Some (status_prefix ++ message e)
  | Disabled => Some not_enabled_message
  | StartFailed e => Some (start_prefix ++ message e)
  end.

(** [isSupported] and [isEnabled] of the state that displays a verdict. *)
Definition flags (v : Verdict) : bool * bool :=
  match v with
  | Ready | StartFailed _ => (true, true)
  | StatusFailed _ | Disabled => (true, false)
  | SupportFailed _ | Unsupported => (false, false)
  end.

(** [NfcManager] after the [r] runs that start with the [i]-th, the
    variable holding [loaded] before them. *)
Fixpoint manager_after (r : nat) (loaded : option Manager)
         (env : nat -> Provider) (i : nat) : option Manager :=
  match r with
  | O => loaded
  | Datatypes.S r' => manager_after r' (cached loaded (env i)) env
                                    (Datatypes.S i)
  end.

(** The number of runs, among the [k] that start with the [i]-th, that
    end one after the other, from the [i]-th on, in an initialization
    failure. *)
Fixpoint init_failures (k : nat) (loaded : option Manager)
         (env : nat -> Provider) (i : nat) : nat :=
  match k with
  | O => O
  | Datatypes.S k' =>
      if is_init_failure (verdict loaded (env i))
      then Datatypes.S (init_failures k' (cached loaded (env i)) env
                                      (Datatypes.S i))
      else O
  end.

(** The state that displays a verdict. *)
Definition display (prev : NfcState) (v : Verdict) : NfcState :=
  spread prev (fst (flags v)) (snd (flags v)) (reported v) false.


(** The provider methods invoked by one run. *)
Definition run_calls (loaded : option Manager) (p : Provider)
  : list Method :=
  match acquired loaded p with
  | Resolved _ => calls_before (verdict loaded p)
  | Rejected _ => []
  end.

(** The provider methods invoked by the [i]-th run and the [r] runs after
    it. *)
Fixpoint calls_through (r : nat) (loaded : option Manager)
         (env : nat -> Provider) (i : nat) : list Method :=
  match r with
  | O => run_calls loaded (env i)
  | Datatypes.S r' =>
      (run_calls loaded (env i)
       ++ calls_through r' (cached loaded (env i)) env (Datatypes.S i))%list
  end.

(** [isEnabled] is false when [isSupported] is. *)
Definition coherent (s : NfcState) : bool :=
  if isSupported s then true else negb (isEnabled s).

(** A store in which a run of [checkNfc] starts while the component is
    mounted. *)
Definition fresh (w : World) : Prop :=
  isInitializing w = false /\ isMounted w = true /\ timers w = [].

(** The timer discipline: while a run of [checkNfc] is under way no timer
    is armed; between runs at most one is, the component is then mounted
    and [retryTimeout] holds its handle. *)
Definition armed_ok (w : World) : Prop :=
  timers w = []
  \/ exists id,
      timers w = [id] /\ retryTimeout w = Some id /\ isMounted w = true.

Definition discipline (m : Machine) : Prop :=
  match task m with
  | Some _ => timers (world m) = []
  | None => armed_ok (world m)
  end.

(** Nothing the component shows or schedules changes from [w0] to [w]. *)
Definition quiet (w0 w : World) : Prop :=
  isMounted w = false
  /\ nfcState w = nfcState w0
  /\ timers w = timers w0
  /\ states_of (log w) = states_of (log w0)
  /\ delays_of (log w) = delays_of (log w0).

(** What a turn may do to the state: nothing, or, the component being
    mounted, one update that spreads the previous state. *)
Definition shown (w0 w : World) : Prop :=
  (nfcState w = nfcState w0 /\ states_of (log w) = states_of (log w0))
  \/ (isMounted w0 = true
      /\ exists sup en err,
          nfcState w = spread (nfcState w0) sup en err false
          /\ states_of (log w) = (states_of (log w0) ++ [nfcState w])%list
          /\ (sup = false -> en = false)).

Definition turn_spec (susp : bool) (w0 w : World) : Prop :=
  (timers w0 = [] -> if susp then timers w = [] else armed_ok w)
  /\ (isMounted w0 = false -> quiet w0 w)
  /\ shown w0 w.

Definition machine_of (c : World * option (Async World unit)) : Machine :=
  mkMachine (fst c) (snd c).

End RetrySpec.

Module SimpleSpec.
Import Simple.

(** The manager is the one the module load left in [NfcManager]. *)
Definition acquired (loaded : option Manager) : Settled Manager :=
  match loaded with
  | Some m => Resolved m
  | None => Rejected (Error no_module_message)
  end.

Definition verdict (loaded : option Manager) (p : Provider) : Verdict :=
  first_stop (acquired loaded) p.

(** The [error] string that displays a verdict: only failures have one. *)
Definition reported (v : Verdict) : option string :=
  match v with
  | SupportFailed e => Some (or_default (message e) unknown_default)
  | StatusFailed e => Some (status_prefix ++ message e)
  | StartFailed e => Some (start_prefix ++ message e)
  | Ready | Unsupported | Disabled => None
  end.

Definition flags (v : Verdict) : bool * bool :=
  match v with
  | Ready | StartFailed _ => (true, true)
  | StatusFailed _ | Disabled => (true, false)
  | SupportFailed _ | Unsupported => (false, false)
  end.


Definition run_calls (loaded : option Manager) (p : Provider)
  : list Method :=
  match acquired loaded with
  | Resolved _ => calls_before (verdict loaded p)
  | Rejected _ => []
  end.

(** [isEnabled] is false when [isSupported] is. *)
Definition coherent (s : NfcState) : bool :=
  if isSupported s then true else negb (isEnabled s).

Definition all_coherent (w : World) : Prop :=
  coherent (nfcState w) = true
  /\ forallb coherent (states_of (log w)) = true.

End SimpleSpec.

(** Providers used in the examples below. *)
Definition ready_provider : Provider :=
  mkProvider (Resolved (Some NativeNfcManager)) (Resolved true)
             (Resolved true) (Resolved tt).

Definition busy_provider : Provider :=
  mkProvider (Resolved (Some NativeNfcManager)) (Resolved true)
             (Resolved true) (Rejected (Error "busy")).

Definition disabled_provider : Provider :=
  mkProvider (Resolved (Some NativeNfcManager)) (Resolved true)
             (Resolved false) (Resolved tt).

Definition absent_provider : Provider :=
  mkProvider (Resolved (Some NativeNfcManager)) (Resolved false)
             (Resolved true) (Resolved tt).

Definition failing_provider : Provider :=
  mkProvider (Resolved (Some NativeNfcManager))
             (Rejected (Error "not ready")) (Resolved true) (Resolved tt).

(** ** The rest of the component: the host constant and the view *)

(** The number of [require] calls and of [cancelTechnologyRequest] calls a
    log records. *)
Fixpoint requires_of {St} (l : list (Event St)) : nat :=
  match l with
  | [] => O
  | EvRequire :: l' => Datatypes.S (requires_of l')
  | _ :: l' => requires_of l'
  end.

Fixpoint cancels_of {St} (l : list (Event St)) : nat :=
  match l with
  | [] => O
  | EvCancel :: l' => Datatypes.S (cancels_of l')
  | _ :: l' => cancels_of l'
  end.

Module Host.

(** The part of the [global] object that the module reads. *)
Record Constants : Type := mkConstants {
  executionEnvironment : option string
}.

Record Modules : Type := mkModules { constants : option Constants }.

Record Expo : Type := mkExpo { modules : option Modules }.

Record Global : Type := mkGlobal { expo : option Expo }.

(** [global.expo?.modules?.constants?.executionEnvironment]: [undefined] as
    soon as a link is missing. *)
Definition environment_of (g : Global) : option string :=
  match expo g with
  | None => None
  | Some e =>
      match modules e with
      | None => None
      | Some m =>
          match constants m with
          | None => None
          | Some c => executionEnvironment c
          end
      end
  end.

(** [x === 'storeClient']. *)
Definition is_storeClient (x : option string) : bool :=
  match x with
  | Some s => String.eqb s "storeClient"
  | None => false
  end.

(** The module constant [isExpoGo]; [DEV] is [__DEV__]. *)
Definition isExpoGo (DEV : bool) (g : Global) : bool :=
  DEV && is_storeClient (environment_of g).

End Host.

Module View.

(** A style value, a style object, and the sheet given to
    [StyleSheet.create]; the two files define the same sheet. *)
Inductive StyleValue : Type :=
| Num (n : Z)
| Str (s : string).

Definition Style : Type := list (string * StyleValue).

Definition styles : list (string * Style) :=
  [ ("wrapper", [ ("flex", Num 1); ("justifyContent", Str "center");
                  ("alignItems", Str "center");
                  ("backgroundColor", Str "#f5fcff"); ("padding", Num 20) ]);
    ("title", [ ("fontSize", Num 20); ("textAlign", Str "center");
                ("marginBottom", Num 20); ("color", Str "#333") ]);
    ("text", [ ("fontSize", Num 16); ("color", Str "#333");
               ("marginBottom", Num 10) ]);
    ("errorText", [ ("fontSize", Num 16); ("color", Str "red");
                    ("marginBottom", Num 10) ]);
    ("readyText", [ ("fontSize", Num 16); ("color", Str "green");
                    ("marginTop", Num 20); ("marginBottom", Num 20) ]);
    ("noReadyText", [ ("fontSize", Num 16); ("color", Str "red");
                      ("marginTop", Num 20); ("marginBottom", Num 20) ]);
    ("welcomeText", [ ("fontSize", Num 24); ("fontWeight", Str "bold");
                      ("color", Str "blue"); ("marginTop", Num 30);
                      ("marginBottom", Num 30) ]) ].

(** [sheet.key]: [undefined] when the sheet has no such key. *)
Fixpoint lookup {A} (key : string) (sheet : list (string * A)) : option A :=
  match sheet with
  | [] => None
  | (k, v) :: rest => if String.eqb k key then Some v else lookup key rest
  end.

(** What is rendered: a [View] with its children, or a [Text] with its
    content; fragments are flattened into their parent. *)
#[warnings="-register-all"] Inductive Element : Type :=
| ViewOf (style : option Style) (children : list Element)
| TextOf (style : option Style) (content : string).

Definition children_of (e : Element) : list Element :=
  match e with
  | ViewOf _ c => c
  | TextOf _ _ => []
  end.

Definition style_of (e : Element) : option Style :=
  match e with
  | ViewOf s _ => s
  | TextOf s _ => s
  end.

Definition has_style (e : Element) : bool :=
  match style_of e with Some _ => true | None => false end.

(** [<Text style={styles.key}>content</Text>]. *)
Definition text (key content : string) : Element :=
  TextOf (lookup key styles) content.

(** [b ? "Yes" : "No"]. *)
Definition yes_no (b : bool) : string := if b then "Yes" else "No".

(** The branch on [nfcState.error]: a string is truthy unless it is empty. *)
Definition error_or (error : option string) (otherwise : list Element)
  : list Element :=
  match error with
  | Some (String c rest) => [text "errorText" ("Error: " ++ String c rest)]
  | _ => otherwise
  end.

(** The two status lines shown when there is no error. *)
Definition status_lines (supported enabled : bool) : list Element :=
  text "text" ("NFC supported: " ++ yes_no supported)
  :: (if supported
      then [text "text" ("NFC Enabled: " ++ yes_no enabled)]
      else []).

(** The lines of the two files' [return (...)], which differ in the platform
    lines and in the text shown when not ready. *)
Definition screen (is_loading : bool) (platform_lines : list Element)
           (error : option string) (supported enabled : bool)
           (not_ready : string) : Element :=
  ViewOf (lookup "wrapper" styles)
         (text "title" "NFC Tag Counter"
          :: (if is_loading
              then [text "loading" "Checking capabilities..."]
              else
                (platform_lines
                 ++ error_or error (status_lines supported enabled)
                 ++ [ if supported && enabled
                      then text "readyText" "Ready to scan NFC tags"
                      else text "noReadyText" not_ready;
                      text "welcomeText" "HELLO WORLD" ])%list)).

(** The retry variant's view of its state. *)
Definition render_retry (s : Retry.NfcState) : Element :=
  screen (Retry.loading s)
         [ text "text" ("Platform: " ++ Retry.platform s);
           text "text" ("Running in Expo Go: " ++ yes_no (Retry.isExpoGo s)) ]
         (Retry.error s) (Retry.isSupported s) (Retry.isEnabled s)
         (if Retry.isExpoGo s
          then "Please use a development build to enable NFC"
          else "NFC is not available or not enabled").

(** The simple variant's view of its state; [os] is [Platform.OS]. *)
Definition render_simple (os : string) (s : Simple.NfcState) : Element :=
  screen (Simple.loading s)
         [ text "text" ("Platform: " ++ os) ]
         (Simple.error s) (Simple.isSupported s) (Simple.isEnabled s)
         "NFC is not available or not enabled".

End View.

(** ** Further predicates on the retry variant's store *)

Module RetryMore.
Import Retry RetrySpec.

(** A state that [checkNfc] sets: not loading, an error that is not empty,
    and no error only when supported and enabled. *)
Definition settled (s : NfcState) : Prop :=
  loading s = false
  /\ error s <> Some ""
  /\ (error s = None -> isSupported s = true /\ isEnabled s = true).

(** What a turn does to the state: nothing, or one update to a settled
    state. *)
Definition emits (w0 w : World) : Prop :=
  (nfcState w = nfcState w0 /\ states_of (log w) = states_of (log w0))
  \/ (isMounted w0 = true
      /\ settled (nfcState w)
      /\ states_of (log w) = (states_of (log w0) ++ [nfcState w])%list).

(** What a turn does to the module-level variables and to the calls that
    only the effect makes. *)
Definition keeps (w0 w : World) : Prop :=
  isMounted w = isMounted w0
  /\ (isInitializing w0 = false -> isInitializing w = false)
  /\ (forall m, NfcManager w0 = Some m ->
                NfcManager w = Some m
                /\ requires_of (log w) = requires_of (log w0))
  /\ cancels_of (log w) = cancels_of (log w0).

(** [retryCount.current] counts the timers scheduled so far. *)
Definition counted (w : World) : Prop :=
  0 <= retryCount w <= maxRetries
  /\ Z.of_nat (length (delays_of (log w))) = retryCount w
  /\ Forall (fun d => d = 2000) (delays_of (log w)).

(** What holds of the timers whether or not the count was reset. *)
Definition bounded (w : World) : Prop :=
  0 <= retryCount w <= maxRetries
  /\ (length (delays_of (log w)) <= 3)%nat
  /\ Forall (fun d => d = 2000) (delays_of (log w)).

Definition accounts (susp : bool) (w0 w : World) : Prop :=
  counted w0 -> timers w0 = [] ->
  if susp then counted w /\ timers w = []
  else counted w \/ (timers w = [] /\ bounded w).

Definition turn_effects (susp : bool) (w0 w : World) : Prop :=
  keeps w0 w /\ emits w0 w /\ accounts susp w0 w.

(** The invariant that [accounts] maintains. *)
Definition accounted (m : Machine) : Prop :=
  match task m with
  | Some _ => counted (world m) /\ timers (world m) = []
  | None => counted (world m) \/ (timers (world m) = [] /\ bounded (world m))
  end.

(** The state is the initial one and nothing was set, or it is the last
    state set. *)
Definition latest (initial : NfcState) (w : World) : Prop :=
  (nfcState w = initial /\ states_of (log w) = [])
  \/ exists earlier,
      states_of (log w) = (earlier ++ [nfcState w])%list.

(** What a step does: nothing, the cleanup, a turn of the task in flight,
    or the first turn of a run started by the one armed timer. *)
Inductive step_kind (m m' : Machine) : Prop :=
| step_idle : m' = m -> step_kind m m'
| step_unmount :
    isMounted (world m) = true ->
    m' = mkMachine (cleanup (world m)) (task m) ->
    step_kind m m'
| step_turn :
    task m <> None ->
    turn_effects (suspended (task m')) (world m) (world m') ->
    step_kind m m'
| step_fire id :
    task m = None ->
    timers (world m) = [id] ->
    turn_effects (suspended (task m')) (fire (world m)) (world m') ->
    step_kind m m'.

(** [isInitializing] is false between turns; no cancel is requested while
    the component is mounted, and at most one ever. *)
Definition kept (m : Machine) : Prop :=
  isInitializing (world m) = false
  /\ (isMounted (world m) = true -> cancels_of (log (world m)) = O)
  /\ (cancels_of (log (world m)) <= 1)%nat.

(** The state is the last one set, and every state set is settled. *)
Definition shows_latest (initial : NfcState) (m : Machine) : Prop :=
  latest initial (world m)
  /\ Forall settled (states_of (log (world m))).

End RetryMore.

Module SimpleMore.
Import Simple SimpleSpec.

(** A state that [checkNfc] sets: not loading, and an error that is not
    empty. *)
Definition settled (s : NfcState) : Prop :=
  loading s = false /\ error s <> Some "".

Definition emits (w0 w : World) : Prop :=
  (nfcState w = nfcState w0 /\ states_of (log w) = states_of (log w0))
  \/ (settled (nfcState w)
      /\ states_of (log w) = (states_of (log w0) ++ [nfcState w])%list).

Definition keeps (w0 w : World) : Prop :=
  unmounted w = unmounted w0
  /\ NfcManager w = NfcManager w0
  /\ cancels_of (log w) = cancels_of (log w0)
  /\ delays_of (log w) = delays_of (log w0).

Definition turn_effects (susp : bool) (w0 w : World) : Prop :=
  keeps w0 w /\ emits w0 w.

Definition latest (initial : NfcState) (w : World) : Prop :=
  (nfcState w = initial /\ states_of (log w) = [])
  \/ exists earlier,
      states_of (log w) = (earlier ++ [nfcState w])%list.

(** What a step does: nothing, the cleanup, or a turn of the task in
    flight. *)
Inductive step_kind (m m' : Machine) : Prop :=
| simple_step_idle : m' = m -> step_kind m m'
| simple_step_unmount :
    unmounted (world m) = false ->
    m' = mkMachine (cleanup (world m)) (task m) ->
    step_kind m m'
| simple_step_turn :
    task m <> None ->
    turn_effects (suspended (task m')) (world m) (world m') ->
    step_kind m m'.

(** No cancel is requested before the cleanup, and at most one ever; no
    timer is ever scheduled; the manager is the one loaded with the
    module. *)
Definition kept (loaded : option Manager) (m : Machine) : Prop :=
  NfcManager (world m) = loaded
  /\ delays_of (log (world m)) = []
  /\ (unmounted (world m) = false -> cancels_of (log (world m)) = O)
  /\ (cancels_of (log (world m)) <= 1)%nat.

Definition shows_latest (initial : NfcState) (m : Machine) : Prop :=
  latest initial (world m)
  /\ Forall settled (states_of (log (world m))).

End SimpleMore.

(** * Theorems *)

(** ** The interpreters *)

Section AsyncFacts.

Variables (W St : Type) (note : Event St -> W -> W).
Variable R : bool -> W -> W -> Prop.

Lemma advance_within (p : Provider) (t : Async W unit) :
  forall w0 w,
    turns_within note R t w0 w ->
    R (suspended (snd (advance note p t w))) w0 (fst (advance note p t w))
    /\ forall t', snd (advance note p t w) = Some t' ->
                  task_within note R t'.
Proof.
  induction t as [a|e|k IH|f k IH|k IH|k IH|q k IH]; cbn; intros w0 w Ht.
  - split; [assumption | discriminate].
  - split; [assumption | discriminate].
  - apply IH; assumption.
  - apply IH; assumption.
  - apply IH, Ht.
  - destruct Ht as [Hr Hk]. split; [assumption|].
    intros t' [= <-]. exact Hk.
  - destruct Ht as [Hr Hk]. split; [assumption|].
    intros t' [= <-]. exact Hk.
Qed.

Lemma resume_within (p : Provider) (t : Async W unit) (w : W) :
  task_within note R t ->
  R (suspended (snd (resume note p t w))) w (fst (resume note p t w))
  /\ forall t', snd (resume note p t w) = Some t' -> task_within note R t'.
Proof.
  destruct t; cbn [resume task_within]; intros Ht;
    apply advance_within; auto.
Qed.

(** Running turn after turn is running to the end. *)
Lemma turns_finish (p : Provider) (t : Async W unit) :
  forall w,
    turns note (suspensions note p t w) p (advance note p t w)
    = (finish note p t w, None).
Proof.
  induction t as [a|e|k IH|f k IH|k IH|k IH|q k IH]; cbn; intros w; auto.
Qed.

End AsyncFacts.

(** ** Logs *)

Section LogFacts.

Variable St : Type.
Implicit Types l : list (Event St).

Lemma calls_of_app l l' : calls_of (l ++ l') = (calls_of l ++ calls_of l')%list.
Proof.
  induction l as [|[] l IH]; cbn; rewrite ?IH; reflexivity.
Qed.

Lemma delays_of_app l l' :
  delays_of (l ++ l') = (delays_of l ++ delays_of l')%list.
Proof.
  induction l as [|[] l IH]; cbn; rewrite ?IH; reflexivity.
Qed.

Lemma states_of_app l l' :
  states_of (l ++ l') = (states_of l ++ states_of l')%list.
Proof.
  induction l as [|[] l IH]; cbn; rewrite ?IH; reflexivity.
Qed.

End LogFacts.

(** ** The retry variant, run by run *)

Module RetryFacts.
Import Retry RetrySpec.

Ltac log_simpl :=
  rewrite ?calls_of_app, ?delays_of_app, ?states_of_app; cbn;
  rewrite ?app_nil_r, <- ?app_assoc; cbn.

Lemma attempt_facts (p : Provider) (w : World) :
  fresh w ->
  let v := verdict (NfcManager w) p in
  let w' := attempt false p w in
  NfcManager w' = cached (NfcManager w) p
  /\ isInitializing w' = false
  /\ isMounted w' = true
  /\ nfcState w' = display (nfcState w) v
  /\ states_of (log w') = (states_of (log w) ++ [nfcState w'])%list
  /\ calls_of (log w') =
     (calls_of (log w)
      ++ match acquired (NfcManager w) p with
         | Resolved _ => calls_before v
         | Rejected _ => []
         end)%list
  /\ if is_init_failure v && (retryCount w <? maxRetries)
     then retryCount w' = retryCount w + 1
          /\ timers w' = [nextTimer w]
          /\ delays_of (log w') = (delays_of (log w) ++ [2000])%list
     else retryCount w' = match v with Ready => 0 | _ => retryCount w end
          /\ timers w' = []
          /\ delays_of (log w') = delays_of (log w).
Proof.
  intros (Hi & Hm & Ht). cbv zeta.
  remember (attempt false p w) as w' eqn:E.
  remember (verdict (NfcManager w) p) as v eqn:Ev.
  destruct w as [mgr ini prom st rc mnt rt tms nxt lg]; cbn in Hi, Hm, Ht.
  subst ini mnt tms.
  destruct p as [rq sup en sta].
  (* [rc] is split far enough for [rc <? 3] to compute *)
  destruct mgr as [m|]; [|destruct rq as [[m|]|e]];
    (destruct sup as [[|]|e1]; [destruct en as [[|]|e2];
                                [destruct sta as [[]|e3]| |]| |]);
    destruct rc as [|[[q|q|]|[q|q|]|]|q];
    cbv -[app Z.add Pos.succ or_default append] in E, Ev; subst w' v;
    cbn; repeat split; log_simpl; reflexivity.
Qed.

Lemma display_display (prev : NfcState) (v v' : Verdict) :
  display (display prev v) v' = display prev v'.
Proof. reflexivity. Qed.

Lemma fresh_fire (w : World) :
  isInitializing w = false -> isMounted w = true ->
  (exists id, timers w = [id]) -> fresh (fire w).
Proof.
  intros Hi Hm [id Ht]. unfold fresh, fire; cbn. rewrite Ht. auto.
Qed.

(** The whole probe, by induction on the retries that are left. *)
Lemma probe_facts (b : nat) :
  forall (env : nat -> Provider) (i : nat) (w : World),
    fresh w ->
    retryCount w = maxRetries - Z.of_nat b ->
    let r := init_failures b (NfcManager w) env i in
    let wf := probe false b env i w in
    let v := verdict (manager_after r (NfcManager w) env i)
                     (env (i + r)%nat) in
    timers wf = []
    /\ isMounted wf = true
    /\ delays_of (log wf) = (delays_of (log w) ++ repeat 2000 r)%list
    /\ nfcState wf = display (nfcState w) v
    /\ calls_of (log wf) =
       (calls_of (log w) ++ calls_through r (NfcManager w) env i)%list
    /\ retryCount wf = match v with
                       | Ready => 0
                       | _ => retryCount w + Z.of_nat r
                       end
    /\ (is_init_failure v = true -> r = b).
Proof.
  induction b as [|b IH]; intros env i w Hw Hrc; cbv zeta.
  - cbn [init_failures manager_after calls_through]. rewrite Nat.add_0_r.
    destruct (attempt_facts (env i) Hw)
      as (_ & _ & Hm & Hst & _ & Hc & Hretry).
    replace (retryCount w <? maxRetries) with false in Hretry
      by (symmetry; apply Z.ltb_ge; lia).
    rewrite andb_false_r in Hretry. destruct Hretry as (Hrc' & Ht & Hd).
    cbn [repeat]. rewrite app_nil_r.
    assert (Hp : probe false 0 env i w = attempt false (env i) w)
      by (cbn; destruct (timers (attempt false (env i) w)); reflexivity).
    rewrite Hp. repeat split; auto.
    rewrite Hrc'. destruct (verdict (NfcManager w) (env i)); lia.
  - destruct (attempt_facts (env i) Hw)
      as (Hmgr & Hini & Hm & Hst & _ & Hc & Hretry).
    replace (retryCount w <? maxRetries) with true in Hretry
      by (symmetry; apply Z.ltb_lt; lia).
    rewrite andb_true_r in Hretry.
    cbn [init_failures].
    destruct (is_init_failure (verdict (NfcManager w) (env i))) eqn:Hv.
    + destruct Hretry as (Hrc' & Ht & Hd).
      assert (Hp : probe false (Datatypes.S b) env i w
                   = probe false b env (Datatypes.S i)
                           (fire (attempt false (env i) w)))
        by (cbn [probe]; rewrite Ht; reflexivity).
      rewrite Hp.
      assert (Hf : fresh (fire (attempt false (env i) w)))
        by (apply fresh_fire; eauto).
      destruct (IH env (Datatypes.S i) _ Hf)
        as (Ht' & Hm' & Hd' & Hst' & Hc' & Hr' & Hb).
      { cbn [fire set_timers retryCount]. rewrite Hrc'. lia. }
      cbn [fire set_timers NfcManager nfcState log retryCount]
        in Ht', Hm', Hd', Hst', Hc', Hr', Hb.
      rewrite Hmgr in Hd', Hst', Hc', Hr', Hb.
      cbn [manager_after calls_through]. rewrite Nat.add_succ_r.
      cbn [Nat.add] in Hst', Hr', Hb.
      repeat split; try assumption.
      * rewrite Hd', Hd, <- app_assoc. reflexivity.
      * rewrite Hst', Hst. apply display_display.
      * rewrite Hc', Hc, <- app_assoc. unfold run_calls, verdict.
        reflexivity.
      * rewrite Hr', Hrc'.
        destruct (verdict _ (env (Datatypes.S (i + _)))); lia.
      * intros H. f_equal. apply Hb, H.
    + destruct Hretry as (Hrc' & Ht & Hd).
      assert (Hp : probe false (Datatypes.S b) env i w
                   = attempt false (env i) w)
        by (cbn [probe]; rewrite Ht; reflexivity).
      rewrite Hp. cbn [manager_after repeat calls_through].
      rewrite Nat.add_0_r, app_nil_r.
      repeat split; try assumption.
      * rewrite Hrc'. destruct (verdict (NfcManager w) (env i)); lia.
      * intros H. rewrite H in Hv. discriminate.
Qed.

(** Counting failures among more runs than can be retried changes nothing
    once the count is capped. *)
Lemma init_failures_cap (b k : nat) :
  forall loaded env i,
    Nat.min b (init_failures (b + k) loaded env i)
    = init_failures b loaded env i.
Proof.
  induction b as [|b IH]; intros loaded env i; [reflexivity|].
  cbn [Nat.add init_failures].
  destruct (is_init_failure (verdict loaded (env i))); [|reflexivity].
  cbn [Nat.min]. f_equal. apply IH.
Qed.

(** If more than [b] runs fail in a row, the first [b] do, and so does the
    run after [b] retries. *)
Lemma init_failures_last (b : nat) :
  forall k loaded env i,
    (b < init_failures k loaded env i)%nat ->
    init_failures b loaded env i = b
    /\ is_init_failure
         (verdict (manager_after b loaded env i) (env (i + b)%nat)) = true.
Proof.
  induction b as [|b IH]; intros [|k] loaded env i H;
    cbn [init_failures] in H; try lia.
  - cbn. rewrite Nat.add_0_r.
    destruct (is_init_failure (verdict loaded (env i))); [auto|lia].
  - cbn [init_failures manager_after].
    destruct (is_init_failure (verdict loaded (env i))); [|lia].
    apply Nat.succ_lt_mono in H.
    destruct (IH k (cached loaded (env i)) env (Datatypes.S i) H)
      as [H1 H2].
    rewrite Nat.add_succ_r. cbn [Nat.add] in H2.
    split; [f_equal|]; assumption.
Qed.

Lemma fresh_initial (expoGo : bool) (os : string) (loaded : option Manager) :
  fresh (initial_world expoGo os loaded).
Proof. repeat split. Qed.

(** The whole probe from mount. *)
Lemma run_facts (os : string) (env : nat -> Provider)
      (loaded : option Manager) :
  let r := init_failures 3 loaded env 0 in
  let w := run false os env loaded in
  let v := verdict (manager_after r loaded env 0) (env r) in
  timers w = []
  /\ delays_of (log w) = repeat 2000 r
  /\ nfcState w = display (nfcState (initial_world false os loaded)) v
  /\ calls_of (log w) = calls_through r loaded env 0
  /\ retryCount w = match v with Ready => 0 | _ => Z.of_nat r end
  /\ (is_init_failure v = true -> r = 3%nat).
Proof.
  destruct (@probe_facts 3 env 0 _ (fresh_initial false os loaded) eq_refl)
    as (Ht & _ & Hd & Hs & Hc & Hr & Hb).
  cbv zeta. repeat split; assumption.
Qed.

End RetryFacts.

(** ** The simple variant, run by run *)

Module SimpleFacts.
Import Simple SimpleSpec.

Ltac log_simpl :=
  rewrite ?calls_of_app, ?delays_of_app, ?states_of_app; cbn;
  rewrite ?app_nil_r, <- ?app_assoc; cbn.

Lemma simple_attempt_facts (p : Provider) (w : World) :
  let v := verdict (NfcManager w) p in
  let w' := attempt p w in
  nfcState w' = mkNfcState (fst (flags v)) (snd (flags v)) (reported v) false
  /\ states_of (log w') = (states_of (log w) ++ [nfcState w'])%list
  /\ calls_of (log w') =
     (calls_of (log w)
      ++ match acquired (NfcManager w) with
         | Resolved _ => calls_before v
         | Rejected _ => []
         end)%list
  /\ delays_of (log w') = delays_of (log w).
Proof.
  destruct w as [mgr st um lg].
  destruct p as [rq sup en sta].
  destruct mgr as [m|];
    [destruct sup as [[|]|e1]; [destruct en as [[|]|e2];
                                [destruct sta as [[]|e3]| |]| |]|];
    cbn; repeat split; log_simpl; reflexivity.
Qed.

(** A property of the store that every turn and the cleanup keep holds in
    every machine the component can be in. *)
Lemma simple_reachable_invariant (P : World -> Prop) :
  (forall r, P (initial_world r)) ->
  (forall w, P w -> P (cleanup w)) ->
  (forall w1, turns_within note (fun _ w0 w => P w0 -> P w) checkNfc w1 w1) ->
  forall m, reachable m ->
    P (world m)
    /\ forall t, task m = Some t ->
                task_within note (fun _ w0 w => P w0 -> P w) t.
Proof.
  intros Hinit Hclean Hcheck m Hm.
  induction Hm as [p r|m i Hm [IHw IHt]].
  - unfold mount.
    pose proof (advance_within note _ p checkNfc _ _
                               (Hcheck (initial_world r))) as [Hr Ht].
    destruct (advance note p checkNfc (initial_world r)) as [w' t'].
    cbn in *. auto.
  - destruct i as [p|]; cbn [step].
    + destruct (task m) as [t|] eqn:Et; [|rewrite Et; auto].
      pose proof (resume_within note _ p t (world m) (IHt t eq_refl))
        as [Hr Ht].
      destruct (resume note p t (world m)) as [w' t'].
      cbn in *. auto.
    + destruct (unmounted (world m)); [auto|].
      cbn. auto.
Qed.

Lemma simple_exec_reachable (ins : list Input) :
  forall m, reachable m -> reachable (exec m ins).
Proof.
  induction ins as [|i ins IH]; intros m Hm; cbn; [assumption|].
  apply IH, reach_step, Hm.
Qed.

Ltac turn_step :=
  match goal with
  | |- forall _, _ => intro
  | |- _ /\ _ => split
  | w : World |- _ => destruct w
  | |- context [match ?x with _ => _ end] => is_var x; destruct x
  | |- context [deliver _ ?r] => is_var r; destruct r
  end.

Ltac turn_cases := unfold checkNfc; repeat (cbn; turn_step).

Lemma checkNfc_coherent (w1 : World) :
  turns_within note (fun _ w0 w => all_coherent w0 -> all_coherent w)
               checkNfc w1 w1.
Proof.
  unfold all_coherent.
  turn_cases; rewrite ?states_of_app, ?forallb_app in *; cbn in *;
    try tauto;
    repeat match goal with H : _ /\ _ |- _ => destruct H end;
    repeat match goal with H : ?a = true |- context [?a] => rewrite H end;
    auto.
Qed.

Lemma reachable_coherent (m : Machine) :
  reachable m -> all_coherent (world m).
Proof.
  intros Hm.
  apply (simple_reachable_invariant all_coherent); try assumption.
  - intros r. split; reflexivity.
  - intros w [H1 H2]. unfold all_coherent, cleanup; destruct w; cbn in *.
    destruct NfcManager0; cbn; rewrite ?states_of_app, ?app_nil_r; auto.
  - apply checkNfc_coherent.
Qed.

End SimpleFacts.

(** ** The retry variant, turn by turn *)

Module RetryMachine.
Import Retry RetrySpec.

Ltac turn_step :=
  match goal with
  | |- forall _, _ => intro
  | |- _ /\ _ => split
  | w : World |- _ => destruct w
  | |- context [match ?x with _ => _ end] => is_var x; destruct x
  | |- context [deliver _ ?r] => is_var r; destruct r
  | |- context [negb ?b] => is_var b; destruct b
  | |- context [?a <? ?b] => destruct (a <? b)
  end.

Ltac turn_cases := unfold checkNfc; repeat (cbn; turn_step).

Section Invariants.

Variables (expoGo : bool) (platformOS : string).

Lemma checkNfc_turns (w1 : World) :
  turns_within note turn_spec (checkNfc expoGo) w1 w1.
Proof.
  unfold turn_spec, quiet, armed_ok, shown.
  destruct expoGo; turn_cases;
    rewrite ?states_of_app, ?delays_of_app, ?app_nil_r; cbn in *;
      rewrite ?app_nil_r;
      try discriminate; try congruence; auto.
  all: subst.
  all: try (right; eexists; repeat split; reflexivity).
  all: right; split; [reflexivity|];
    do 3 eexists; repeat split; try reflexivity; try discriminate.
Qed.

Lemma cleanup_timers (w : World) :
  armed_ok w -> timers (cleanup w) = [].
Proof.
  unfold armed_ok, cleanup.
  intros [Ht|(id & Ht & Hr & _)]; destruct w; cbn in *; subst.
  - destruct retryTimeout0, NfcManager0; reflexivity.
  - destruct NfcManager0; cbn; rewrite Pos.eqb_refl; reflexivity.
Qed.

Lemma cleanup_unmounts (w : World) : isMounted (cleanup w) = false.
Proof.
  unfold cleanup. destruct w; cbn.
  destruct retryTimeout0, NfcManager0; reflexivity.
Qed.

Lemma reachable_discipline (m : Machine) :
  reachable expoGo platformOS m ->
  discipline m
  /\ forall t, task m = Some t -> task_within note turn_spec t.
Proof.
  intros Hm. induction Hm as [p loaded|m i Hm [IHd IHt]].
  - unfold mount, start_task.
    pose proof (advance_within note _ p (checkNfc expoGo) _ _
                  (checkNfc_turns (initial_world expoGo platformOS loaded)))
      as [[Hr _] Ht].
    destruct (advance note p (checkNfc expoGo)
                      (initial_world expoGo platformOS loaded))
      as [w' t'].
    unfold discipline. destruct t'; cbn in *; auto.
  - unfold discipline in *. destruct i as [p|p|]; cbn [step].
    + destruct (task m) as [t|] eqn:Et; [|rewrite Et; auto].
      pose proof (resume_within note _ p t (world m) (IHt t eq_refl))
        as [[Hr _] Ht].
      destruct (resume note p t (world m)) as [w' t'].
      destruct t'; cbn in *; auto.
    + destruct (task m) as [t|] eqn:Et; [rewrite Et; auto|].
      destruct (timers (world m)) as [|id rest] eqn:Etm;
        [cbn; rewrite ?Et, ?Etm; auto|].
      unfold start_task.
      pose proof (advance_within note _ p (checkNfc expoGo) _ _
                    (checkNfc_turns (fire (world m)))) as [[Hr _] Ht].
      destruct (advance note p (checkNfc expoGo) (fire (world m)))
        as [w' t'].
      assert (Hf : timers (fire (world m)) = []).
      { unfold fire; cbn. rewrite Etm.
        destruct IHd as [H|(id' & H & _)]; rewrite Etm in H;
          [discriminate|]. injection H as _ ->. reflexivity. }
      destruct t'; cbn in *; auto.
    + destruct (isMounted (world m)); [|auto].
      cbn [task world].
      assert (Hc : timers (cleanup (world m)) = []).
      { apply cleanup_timers.
        destruct (task m); [left|]; assumption. }
      split; [|assumption].
      destruct (task m); [assumption | left; assumption].
Qed.

(** [step] lets the timer fire only when no run is under way; by the
    discipline that is whenever a timer is armed. *)
Lemma armed_timer_idle (m : Machine) :
  reachable expoGo platformOS m ->
  timers (world m) <> [] -> task m = None.
Proof.
  intros Hm Ht. destruct (reachable_discipline Hm) as [Hd _].
  unfold discipline in Hd. destruct (task m); [contradiction | reflexivity].
Qed.

Lemma quiet_refl (w : World) : isMounted w = false -> quiet w w.
Proof. unfold quiet; auto. Qed.

Lemma quiet_trans (w0 w1 w2 : World) :
  quiet w0 w1 -> quiet w1 w2 -> quiet w0 w2.
Proof. unfold quiet; intuition congruence. Qed.

(** Once unmounted, no turn changes what the component shows or
    schedules, and no timer is left to fire. *)
Lemma unmounted_step (m : Machine) (i : Input) :
  reachable expoGo platformOS m ->
  isMounted (world m) = false ->
  timers (world m) = [] /\ quiet (world m) (world (step expoGo m i)).
Proof.
  intros Hm Hu.
  destruct (reachable_discipline Hm) as [Hd Ht].
  assert (Htm : timers (world m) = []).
  { unfold discipline in Hd. destruct (task m); [assumption|].
    destruct Hd as [H|(id & _ & _ & H)]; [assumption | congruence]. }
  split; [assumption|].
  destruct i as [p|p|]; cbn [step].
  - destruct (task m) as [t|] eqn:Et; [|apply quiet_refl; assumption].
    pose proof (resume_within note _ p t (world m) (Ht t eq_refl))
      as [(_ & Hq & _) _].
    destruct (resume note p t (world m)) as [w' t'].
    cbn in *. auto.
  - rewrite Htm. destruct (task m); apply quiet_refl; assumption.
  - rewrite Hu. apply quiet_refl; assumption.
Qed.

Lemma unmounted_exec (ins : list Input) :
  forall m,
    reachable expoGo platformOS m ->
    isMounted (world m) = false ->
    reachable expoGo platformOS (exec expoGo m ins)
    /\ quiet (world m) (world (exec expoGo m ins)).
Proof.
  induction ins as [|i ins IH]; intros m Hm Hu; cbn.
  - split; [assumption | apply quiet_refl; assumption].
  - destruct (unmounted_step i Hm Hu) as [_ Hq].
    destruct (IH (step expoGo m i)) as [Hr Hq'].
    + apply reach_step; assumption.
    + apply Hq.
    + split; [assumption | eapply quiet_trans; eassumption].
Qed.

(** *** Uninterrupted runs are runs of the event loop *)

Lemma turns_reachable (n : nat) (p : Provider) :
  forall c,
    reachable expoGo platformOS (machine_of c) ->
    reachable expoGo platformOS (machine_of (turns note n p c)).
Proof.
  induction n as [|n IH]; intros [w t] Hc; cbn; [assumption|].
  destruct t as [t|]; [|assumption].
  apply IH.
  pose proof (reach_step (Settle p) Hc) as Hs.
  cbn in Hs. destruct (resume note p t w); assumption.
Qed.

Lemma attempt_reachable (p : Provider) (w : World) :
  reachable expoGo platformOS (start_task p (checkNfc expoGo) w) ->
  reachable expoGo platformOS (mkMachine (attempt expoGo p w) None).
Proof.
  intros H.
  pose proof (@turns_reachable
                (suspensions note p (checkNfc expoGo) w) p
                (advance note p (checkNfc expoGo) w)) as Ht.
  rewrite turns_finish in Ht. apply Ht.
  unfold start_task in H.
  destruct (advance note p (checkNfc expoGo) w); assumption.
Qed.

Lemma probe_reachable (b : nat) (env : nat -> Provider) :
  forall i w,
    (forall p,
        reachable expoGo platformOS (start_task p (checkNfc expoGo) w)) ->
    reachable expoGo platformOS (mkMachine (probe expoGo b env i w) None).
Proof.
  induction b as [|b IH]; intros i w Hw.
  - cbn. destruct (timers (attempt expoGo (env i) w));
      apply attempt_reachable, Hw.
  - cbn [probe].
    pose proof (@attempt_reachable _ _ (Hw (env i))) as Ha.
    destruct (timers (attempt expoGo (env i) w)) as [|id rest] eqn:Et;
      [assumption|].
    apply IH. intros p.
    pose proof (reach_step (Fire p) Ha) as Hs.
    cbn in Hs. rewrite Et in Hs. exact Hs.
Qed.

Lemma run_reachable (env : nat -> Provider) (loaded : option Manager) :
  reachable expoGo platformOS
            (mkMachine (run expoGo platformOS env loaded) None).
Proof.
  apply probe_reachable. intros p. apply reach_mount.
Qed.

(** *** What a step may do to the state *)

Lemma shown_refl (w : World) : shown w w.
Proof. left; auto. Qed.

Lemma cleanup_shown (w : World) : shown w (cleanup w).
Proof.
  left. unfold cleanup. destruct w; cbn.
  destruct retryTimeout0, NfcManager0; cbn;
    rewrite ?states_of_app; cbn; rewrite ?app_nil_r; auto.
Qed.

Lemma mount_shown (p : Provider) (loaded : option Manager) :
  shown (initial_world expoGo platformOS loaded)
        (world (mount expoGo platformOS p loaded)).
Proof.
  unfold mount, start_task.
  pose proof (advance_within note _ p (checkNfc expoGo) _ _
                (checkNfc_turns (initial_world expoGo platformOS loaded)))
    as [(_ & _ & Hs) _].
  destruct (advance note p (checkNfc expoGo)
                    (initial_world expoGo platformOS loaded)).
  exact Hs.
Qed.

Lemma step_shown (m : Machine) (i : Input) :
  reachable expoGo platformOS m ->
  shown (world m) (world (step expoGo m i)).
Proof.
  intros Hm. destruct (reachable_discipline Hm) as [_ Ht].
  destruct i as [p|p|]; cbn [step].
  - destruct (task m) as [t|] eqn:Et; [|apply shown_refl].
    pose proof (resume_within note _ p t (world m) (Ht t eq_refl))
      as [(_ & _ & Hs) _].
    destruct (resume note p t (world m)). exact Hs.
  - destruct (task m) as [t|]; [apply shown_refl|].
    destruct (timers (world m)); [apply shown_refl|].
    unfold start_task.
    pose proof (advance_within note _ p (checkNfc expoGo) _ _
                  (checkNfc_turns (fire (world m)))) as [(_ & _ & Hs) _].
    destruct (advance note p (checkNfc expoGo) (fire (world m))).
    exact Hs.
  - destruct (isMounted (world m)); [|apply shown_refl].
    apply cleanup_shown.
Qed.

(** A property of states that the initial state has and that every
    spreading update keeps holds of the state and of every logged
    state of every machine the component can be in. *)
Lemma reachable_states (P : NfcState -> Prop) :
  P (nfcState (initial_world expoGo platformOS None)) ->
  (forall prev sup en err,
      P prev -> (sup = false -> en = false) ->
      P (spread prev sup en err false)) ->
  forall m, reachable expoGo platformOS m ->
    P (nfcState (world m)) /\ Forall P (states_of (log (world m))).
Proof.
  intros Hinit Hspread.
  assert (Hkeep : forall w0 w,
             shown w0 w ->
             P (nfcState w0) /\ Forall P (states_of (log w0)) ->
             P (nfcState w) /\ Forall P (states_of (log w))).
  { intros w0 w [[Hn Hl]|(_ & sup & en & err & Hn & Hl & Hc)] [H0 Hf].
    - rewrite Hn, Hl. auto.
    - assert (Hw : P (nfcState w)) by (rewrite Hn; auto).
      split; [assumption|]. rewrite Hl. apply Forall_app. auto. }
  intros m Hm. induction Hm as [p loaded|m i Hm IH].
  - apply (Hkeep _ _ (mount_shown p loaded)). cbn. auto.
  - apply (Hkeep _ _ (step_shown i Hm)), IH.
Qed.

Lemma exec_reachable (ins : list Input) :
  forall m,
    reachable expoGo platformOS m ->
    reachable expoGo platformOS (exec expoGo m ins).
Proof.
  induction ins as [|i ins IH]; intros m Hm; cbn; [assumption|].
  apply IH, reach_step, Hm.
Qed.

End Invariants.

End RetryMachine.

(** * The claims of the specification *)

(** A run that does not end in an initialization failure shows its verdict
    and arms no timer. *)
Lemma attempt_settled (p : Provider) (w : Retry.World) (v : Verdict) :
  RetrySpec.fresh w ->
  RetrySpec.verdict (Retry.NfcManager w) p = v ->
  is_init_failure v = false ->
  let w' := Retry.attempt false p w in
  Retry.nfcState w' = RetrySpec.display (Retry.nfcState w) v
  /\ Retry.timers w' = []
  /\ delays_of (Retry.log w') = delays_of (Retry.log w)
  /\ Retry.retryCount w' = match v with
                           | Ready => 0
                           | _ => Retry.retryCount w
                           end.
Proof.
  intros Hw Hv Hi.
  destruct (RetryFacts.attempt_facts p Hw) as (_ & _ & _ & Hs & _ & _ & Hr).
  rewrite Hv in Hs, Hr. rewrite Hi in Hr. cbn in Hr.
  destruct Hr as (Hrc & Ht & Hd). cbv zeta. auto.
Qed.

(** C1.  Outside a restricted host, whatever the provider answers, the error
    of the final state is the one that displays the verdict of the run that
    produced it, and the verdict is decided by the first step, in the order
    [isSupported()], [isEnabled()], [start()], that fails or answers no; the
    steps after it are not even invoked.  In the retry variant the final
    state is produced by the run after the last retry, after which no timer
    is armed; the simple variant has one run, and there a step that answers
    no is shown without an error. *)
Theorem final_error_is_first_stop :
  (forall (os : string) (env : nat -> Provider) (loaded : option Manager),
      let w := Retry.run false os env loaded in
      let r := RetrySpec.init_failures 3 loaded env 0 in
      let v := RetrySpec.verdict (RetrySpec.manager_after r loaded env 0)
                                 (env r) in
      length (delays_of (Retry.log w)) = r
      /\ Retry.timers w = []
      /\ Retry.error (Retry.nfcState w) = RetrySpec.reported v
      /\ calls_of (Retry.log w) = RetrySpec.calls_through r loaded env 0)
  /\ (forall (p : Provider) (rq : Settled (option Manager)),
      let w := Simple.run p rq in
      let v := SimpleSpec.verdict (Simple.load_module rq) p in
      Simple.error (Simple.nfcState w) = SimpleSpec.reported v
      /\ calls_of (Simple.log w)
         = SimpleSpec.run_calls (Simple.load_module rq) p).
Proof.
  split.
  - intros os env loaded.
    destruct (RetryFacts.run_facts os env loaded)
      as (Ht & Hd & Hs & Hc & _ & _).
    cbv zeta. rewrite Hd, Hs, Hc, repeat_length. auto.
  - intros p rq.
    destruct (SimpleFacts.simple_attempt_facts p (Simple.initial_world rq))
      as (Hs & _ & Hc & _).
    unfold Simple.run. cbv zeta. rewrite Hs, Hc. auto.
Qed.

(** C2, amended to the retry variant.  A probe whose runs end in an
    initialization failure [n] times in a row from the first is retried
    [min 3 n] times, each time by a timer of 2000 ms, and then no timer is
    armed; when more than three runs fail, the state after the third retry
    is the initialization failure of the fourth run, with [loading] false. *)
Theorem init_failure_retries :
  forall (os : string) (env : nat -> Provider) (loaded : option Manager)
         (k : nat),
    let w := Retry.run false os env loaded in
    let n := RetrySpec.init_failures (3 + k) loaded env 0 in
    delays_of (Retry.log w) = repeat 2000 (Nat.min 3 n)
    /\ Retry.timers w = []
    /\ ((3 < n)%nat ->
        exists e,
          RetrySpec.verdict (RetrySpec.manager_after 3 loaded env 0) (env 3%nat)
          = SupportFailed e
          /\ Retry.nfcState w
             = Retry.mkNfcState
                 false false
                 (Some (or_default (message e) Retry.support_default))
                 false os false).
Proof.
  intros os env loaded k.
  destruct (RetryFacts.run_facts os env loaded)
    as (Ht & Hd & Hs & _ & _ & _).
  cbv zeta. rewrite RetryFacts.init_failures_cap.
  repeat split; try assumption.
  intros Hn.
  destruct (RetryFacts.init_failures_last _ _ _ _ Hn) as [Hr Hv].
  rewrite Hr in Hs. cbn [Nat.add] in Hv.
  destruct (RetrySpec.verdict (RetrySpec.manager_after 3 loaded env 0)
                              (env 3%nat)) as [|e| | | |] eqn:E;
    try discriminate.
  exists e. split; [reflexivity|]. rewrite Hs. reflexivity.
Qed.

Lemma init_failure_retries_witness :
  exists e,
    RetrySpec.verdict
      (RetrySpec.manager_after 3 None (fun _ => failing_provider) 0)
      failing_provider = SupportFailed e
    /\ Retry.nfcState (Retry.run false "android" (fun _ => failing_provider)
                                 None)
       = Retry.mkNfcState
           false false (Some (or_default (message e) Retry.support_default))
           false "android" false.
Proof.
  apply (init_failure_retries "android" (fun _ => failing_provider) None 1).
  cbn. lia.
Defined.

(** The simple variant, in which the claim C2 fails: a run that ends in an
    initialization failure is not followed by any retry. *)
Lemma simple_init_failure_not_retried :
  let w := Simple.run failing_provider (Resolved (Some NativeNfcManager)) in
  is_init_failure
    (SimpleSpec.verdict (Simple.NfcManager w) failing_provider) = true
  /\ calls_of (Simple.log w) = [IsSupported]
  /\ length (delays_of (Simple.log w)) <> Nat.min 3 1.
Proof. cbn. repeat split. discriminate. Qed.

(** C3.  In a restricted host the probe makes one state update, to the
    restricted-host error with [loading] false, and nothing else: no
    [require], no provider call, no timer; the task ends in its first
    turn. *)
Theorem restricted_host_is_terminal :
  forall (os : string) (env : nat -> Provider) (loaded : option Manager)
         (p : Provider),
    let s := Retry.mkNfcState false false (Some Retry.expo_go_message) false
                              os true in
    let w := Retry.run true os env loaded in
    Retry.nfcState w = s
    /\ Retry.log w = [EvSetNfcState s]
    /\ calls_of (Retry.log w) = []
    /\ Retry.timers w = []
    /\ Retry.mount true os p loaded = Retry.mkMachine w None.
Proof.
  intros os env loaded p. cbn. repeat split.
Qed.

(** C4, amended.  When the manager is obtained, [isSupported()] resolves
    true and [isEnabled()] resolves false, a run of either variant sets the
    state to supported, not enabled, not loading, and schedules no retry;
    the error is the radio-disabled message in the retry variant and null in
    the simple variant. *)
Theorem radio_disabled_is_terminal :
  (forall (p : Provider) (w : Retry.World) (m : Manager),
      RetrySpec.fresh w ->
      RetrySpec.acquired (Retry.NfcManager w) p = Resolved m ->
      isSupported_result p = Resolved true ->
      isEnabled_result p = Resolved false ->
      let w' := Retry.attempt false p w in
      Retry.nfcState w'
      = Retry.spread (Retry.nfcState w) true false
                     (Some Retry.not_enabled_message) false
      /\ Retry.timers w' = []
      /\ delays_of (Retry.log w') = delays_of (Retry.log w)
      /\ Retry.retryCount w' = Retry.retryCount w)
  /\ (forall (p : Provider) (w : Simple.World) (m : Manager),
      Simple.NfcManager w = Some m ->
      isSupported_result p = Resolved true ->
      isEnabled_result p = Resolved false ->
      let w' := Simple.attempt p w in
      Simple.nfcState w' = Simple.mkNfcState true false None false
      /\ delays_of (Simple.log w') = delays_of (Simple.log w)).
Proof.
  split.
  - intros p w m Hw Ha Hs He.
    apply (attempt_settled (v := Disabled) p Hw); [|reflexivity].
    unfold RetrySpec.verdict, first_stop. rewrite Ha, Hs, He. reflexivity.
  - intros p w m Hm Hs He.
    destruct (SimpleFacts.simple_attempt_facts p w) as (H & _ & _ & Hd).
    cbv zeta. rewrite H, Hd. unfold SimpleSpec.verdict, first_stop.
    rewrite Hm, Hs, He. auto.
Qed.

Lemma radio_disabled_is_terminal_witness :
  Retry.nfcState
    (Retry.attempt false disabled_provider
                   (Retry.initial_world false "android" None))
  = Retry.mkNfcState true false (Some Retry.not_enabled_message) false
                     "android" false
  /\ (let w' := Simple.attempt
                  disabled_provider
                  (Simple.initial_world (Resolved (Some NativeNfcManager))) in
      Simple.nfcState w' = Simple.mkNfcState true false None false
      /\ delays_of (Simple.log w') = []).
Proof.
  split.
  - apply (proj1 radio_disabled_is_terminal disabled_provider
                 (Retry.initial_world false "android" None) NativeNfcManager);
      repeat split; reflexivity.
  - apply (proj2 radio_disabled_is_terminal disabled_provider
                 (Simple.initial_world (Resolved (Some NativeNfcManager)))
                 NativeNfcManager); reflexivity.
Defined.

(** The simple variant, in which the claim C4 fails: with [isSupported()]
    true and [isEnabled()] false the error of the final state is null. *)
Lemma simple_radio_disabled_has_no_error :
  let w := Simple.run disabled_provider (Resolved (Some NativeNfcManager)) in
  isSupported_result disabled_provider = Resolved true
  /\ isEnabled_result disabled_provider = Resolved false
  /\ Simple.nfcState w = Simple.mkNfcState true false None false
  /\ ~ (exists msg, Simple.error (Simple.nfcState w) = Some msg).
Proof.
  cbn. repeat split. intros [msg H]. discriminate.
Qed.

(** C5.  When the manager is obtained and the three steps succeed, a run
    sets the state to supported, enabled, no error, not loading, and, in the
    retry variant, leaves [retryCount] at 0 whatever it was. *)
Theorem success_resets_retry_count :
  (forall (p : Provider) (w : Retry.World) (m : Manager),
      RetrySpec.fresh w ->
      RetrySpec.acquired (Retry.NfcManager w) p = Resolved m ->
      isSupported_result p = Resolved true ->
      isEnabled_result p = Resolved true ->
      start_result p = Resolved tt ->
      let w' := Retry.attempt false p w in
      Retry.nfcState w' = Retry.spread (Retry.nfcState w) true true None false
      /\ Retry.retryCount w' = 0
      /\ Retry.timers w' = [])
  /\ (forall (p : Provider) (w : Simple.World) (m : Manager),
      Simple.NfcManager w = Some m ->
      isSupported_result p = Resolved true ->
      isEnabled_result p = Resolved true ->
      start_result p = Resolved tt ->
      Simple.nfcState (Simple.attempt p w)
      = Simple.mkNfcState true true None false).
Proof.
  split.
  - intros p w m Hw Ha Hs He Hst.
    destruct (attempt_settled (v := Ready) p Hw) as (H1 & H2 & _ & H4);
      [|reflexivity|auto].
    unfold RetrySpec.verdict, first_stop. rewrite Ha, Hs, He, Hst.
    reflexivity.
  - intros p w m Hm Hs He Hst.
    destruct (SimpleFacts.simple_attempt_facts p w) as (H & _).
    rewrite H. unfold SimpleSpec.verdict, first_stop.
    rewrite Hm, Hs, He, Hst. reflexivity.
Qed.

Lemma success_resets_retry_count_witness :
  (let w' := Retry.attempt
               false ready_provider
               (Retry.set_retryCount
                  2 (Retry.initial_world false "android" None)) in
   Retry.nfcState w'
   = Retry.mkNfcState true true None false "android" false
   /\ Retry.retryCount w' = 0
   /\ Retry.timers w' = [])
  /\ Simple.nfcState
       (Simple.attempt ready_provider
                       (Simple.initial_world (Resolved (Some NativeNfcManager))))
     = Simple.mkNfcState true true None false.
Proof.
  split.
  - apply (proj1 success_resets_retry_count ready_provider
                 (Retry.set_retryCount
                    2 (Retry.initial_world false "android" None))
                 NativeNfcManager);
      repeat split; reflexivity.
  - apply (proj2 success_resets_retry_count ready_provider
                 (Simple.initial_world (Resolved (Some NativeNfcManager)))
                 NativeNfcManager); reflexivity.
Defined.

(** C6.  When the manager is obtained, [isSupported()] and [isEnabled()]
    resolve true and [start()] throws an error whose message is "busy", the
    final state is supported, enabled, not loading, with the error
    "Failed to start NFC: busy", and no retry is scheduled. *)
Theorem start_busy_example :
  (forall (p : Provider) (w : Retry.World) (m : Manager),
      RetrySpec.fresh w ->
      RetrySpec.acquired (Retry.NfcManager w) p = Resolved m ->
      isSupported_result p = Resolved true ->
      isEnabled_result p = Resolved true ->
      start_result p = Rejected (Error "busy") ->
      let w' := Retry.attempt false p w in
      Retry.nfcState w'
      = Retry.spread (Retry.nfcState w) true true
                     (Some "Failed to start NFC: busy") false
      /\ Retry.timers w' = []
      /\ delays_of (Retry.log w') = delays_of (Retry.log w))
  /\ (forall (p : Provider) (w : Simple.World) (m : Manager),
      Simple.NfcManager w = Some m ->
      isSupported_result p = Resolved true ->
      isEnabled_result p = Resolved true ->
      start_result p = Rejected (Error "busy") ->
      let w' := Simple.attempt p w in
      Simple.nfcState w'
      = Simple.mkNfcState true true (Some "Failed to start NFC: busy") false
      /\ delays_of (Simple.log w') = delays_of (Simple.log w)).
Proof.
  split.
  - intros p w m Hw Ha Hs He Hst.
    destruct (attempt_settled (v := StartFailed (Error "busy")) p Hw)
      as (H1 & H2 & H3 & _); [|reflexivity|auto].
    unfold RetrySpec.verdict, first_stop. rewrite Ha, Hs, He, Hst.
    reflexivity.
  - intros p w m Hm Hs He Hst.
    destruct (SimpleFacts.simple_attempt_facts p w) as (H & _ & _ & Hd).
    cbv zeta. rewrite H, Hd. unfold SimpleSpec.verdict, first_stop.
    rewrite Hm, Hs, He, Hst. auto.
Qed.

Lemma start_busy_example_witness :
  (let w' := Retry.attempt false busy_provider
                           (Retry.initial_world false "android" None) in
   Retry.nfcState w'
   = Retry.mkNfcState true true (Some "Failed to start NFC: busy") false
                      "android" false
   /\ Retry.timers w' = []
   /\ delays_of (Retry.log w') = [])
  /\ (let w' := Simple.attempt
                  busy_provider
                  (Simple.initial_world (Resolved (Some NativeNfcManager))) in
      Simple.nfcState w'
      = Simple.mkNfcState true true (Some "Failed to start NFC: busy") false
      /\ delays_of (Simple.log w') = []).
Proof.
  split.
  - apply (proj1 start_busy_example busy_provider
                 (Retry.initial_world false "android" None) NativeNfcManager);
      repeat split; reflexivity.
  - apply (proj2 start_busy_example busy_provider
                 (Simple.initial_world (Resolved (Some NativeNfcManager)))
                 NativeNfcManager); reflexivity.
Defined.

(** C9.  When the manager is obtained and [isSupported()] resolves false, a
    run sets a state that is neither supported nor enabled and arms no
    timer, whatever [retryCount] holds; the retry variant leaves
    [retryCount] as it was. *)
Theorem unsupported_is_never_retried :
  (forall (p : Provider) (w : Retry.World) (m : Manager),
      RetrySpec.fresh w ->
      RetrySpec.acquired (Retry.NfcManager w) p = Resolved m ->
      isSupported_result p = Resolved false ->
      let w' := Retry.attempt false p w in
      Retry.nfcState w'
      = Retry.spread (Retry.nfcState w) false false
                     (Some Retry.no_hardware_message) false
      /\ Retry.isEnabled (Retry.nfcState w') = false
      /\ Retry.timers w' = []
      /\ delays_of (Retry.log w') = delays_of (Retry.log w)
      /\ Retry.retryCount w' = Retry.retryCount w)
  /\ (forall (p : Provider) (w : Simple.World) (m : Manager),
      Simple.NfcManager w = Some m ->
      isSupported_result p = Resolved false ->
      let w' := Simple.attempt p w in
      Simple.nfcState w' = Simple.mkNfcState false false None false
      /\ Simple.isEnabled (Simple.nfcState w') = false
      /\ delays_of (Simple.log w') = delays_of (Simple.log w)).
Proof.
  split.
  - intros p w m Hw Ha Hs.
    destruct (attempt_settled (v := Unsupported) p Hw)
      as (H1 & H2 & H3 & H4); [|reflexivity|].
    + unfold RetrySpec.verdict, first_stop. rewrite Ha, Hs. reflexivity.
    + cbv zeta. rewrite H1. auto.
  - intros p w m Hm Hs.
    destruct (SimpleFacts.simple_attempt_facts p w) as (H & _ & _ & Hd).
    cbv zeta. rewrite H, Hd. unfold SimpleSpec.verdict, first_stop.
    rewrite Hm, Hs. auto.
Qed.

Lemma unsupported_is_never_retried_witness :
  (let w' := Retry.attempt
               false absent_provider
               (Retry.set_retryCount
                  1 (Retry.initial_world false "android" None)) in
   Retry.nfcState w'
   = Retry.mkNfcState false false (Some Retry.no_hardware_message) false
                      "android" false
   /\ Retry.isEnabled (Retry.nfcState w') = false
   /\ Retry.timers w' = []
   /\ delays_of (Retry.log w') = []
   /\ Retry.retryCount w' = 1)
  /\ (let w' := Simple.attempt
                  absent_provider
                  (Simple.initial_world (Resolved (Some NativeNfcManager))) in
      Simple.nfcState w' = Simple.mkNfcState false false None false
      /\ Simple.isEnabled (Simple.nfcState w') = false
      /\ delays_of (Simple.log w') = []).
Proof.
  split.
  - apply (proj1 unsupported_is_never_retried absent_provider
                 (Retry.set_retryCount
                    1 (Retry.initial_world false "android" None))
                 NativeNfcManager);
      repeat split; reflexivity.
  - apply (proj2 unsupported_is_never_retried absent_provider
                 (Simple.initial_world (Resolved (Some NativeNfcManager)))
                 NativeNfcManager); reflexivity.
Defined.

(** C7.  In both variants, whatever the provider answers and whenever the
    timer fires or the component is unmounted, the state the component
    holds, its initial state, and every state it has set have [isEnabled]
    false when [isSupported] is false. *)
Theorem enabled_only_if_supported :
  (forall (expoGo : bool) (os : string) (p : Provider)
          (loaded : option Manager) (ins : list Retry.Input),
      let w := Retry.world
                 (Retry.exec expoGo (Retry.mount expoGo os p loaded) ins) in
      RetrySpec.coherent
        (Retry.nfcState (Retry.initial_world expoGo os loaded)) = true
      /\ RetrySpec.coherent (Retry.nfcState w) = true
      /\ forallb RetrySpec.coherent (states_of (Retry.log w)) = true)
  /\ (forall (p : Provider) (rq : Settled (option Manager))
             (ins : list Simple.Input),
      let w := Simple.world (Simple.exec (Simple.mount p rq) ins) in
      SimpleSpec.coherent (Simple.nfcState (Simple.initial_world rq)) = true
      /\ SimpleSpec.coherent (Simple.nfcState w) = true
      /\ forallb SimpleSpec.coherent (states_of (Simple.log w)) = true).
Proof.
  split.
  - intros expoGo os p loaded ins.
    destruct (RetryMachine.reachable_states
                (expoGo := expoGo) (platformOS := os)
                (fun s => RetrySpec.coherent s = true))
      with (m := Retry.exec expoGo (Retry.mount expoGo os p loaded) ins)
      as [Hs Hl].
    + reflexivity.
    + intros prev sup en err _ Hc. unfold RetrySpec.coherent; cbn.
      destruct sup; [reflexivity|]. rewrite Hc; reflexivity.
    + apply RetryMachine.exec_reachable, Retry.reach_mount.
    + cbv zeta. repeat split; try assumption.
      apply forallb_forall. apply Forall_forall. exact Hl.
  - intros p rq ins.
    destruct (SimpleFacts.reachable_coherent
                (m := Simple.exec (Simple.mount p rq) ins)) as [Hs Hl].
    + apply SimpleFacts.simple_exec_reachable, Simple.reach_mount.
    + cbv zeta. repeat split; assumption.
Qed.

(** C8, amended to the retry variant.  Once the component is unmounted,
    whatever was in flight and whatever happens next, the state is never
    set again, no timer is scheduled, none is left armed, and a firing of the
    retry timer runs nothing. *)
Theorem no_update_after_unmount :
  forall (expoGo : bool) (os : string) (p : Provider)
         (loaded : option Manager) (before after : list Retry.Input),
    let m1 := Retry.step expoGo
                (Retry.exec expoGo (Retry.mount expoGo os p loaded) before)
                Retry.Unmount in
    let m2 := Retry.exec expoGo m1 after in
    Retry.isMounted (Retry.world m1) = false
    /\ Retry.nfcState (Retry.world m2) = Retry.nfcState (Retry.world m1)
    /\ states_of (Retry.log (Retry.world m2))
       = states_of (Retry.log (Retry.world m1))
    /\ delays_of (Retry.log (Retry.world m2))
       = delays_of (Retry.log (Retry.world m1))
    /\ Retry.timers (Retry.world m2) = []
    /\ forall p', Retry.step expoGo m2 (Retry.Fire p') = m2.
Proof.
  intros expoGo os p loaded before after m1 m2.
  assert (H1 : Retry.reachable expoGo os m1).
  { apply Retry.reach_step, RetryMachine.exec_reachable, Retry.reach_mount. }
  assert (Hu : Retry.isMounted (Retry.world m1) = false).
  { subst m1. cbn [Retry.step].
    destruct (Retry.isMounted
                (Retry.world
                   (Retry.exec expoGo (Retry.mount expoGo os p loaded)
                               before))) eqn:E.
    - apply RetryMachine.cleanup_unmounts.
    - exact E. }
  destruct (RetryMachine.unmounted_exec after H1 Hu)
    as [H2 (Hm & Hs & Ht & Hl & Hd)].
  fold m2 in H2, Hm, Hs, Ht, Hl, Hd.
  destruct (RetryMachine.unmounted_step Retry.Unmount H2 Hm) as [Htm _].
  repeat split; try assumption.
  intros p'. cbn [Retry.step]. rewrite Htm.
  destruct (Retry.task m2); reflexivity.
Qed.

(** The simple variant, in which the claim C8 fails: the component is
    unmounted while [isSupported()] is in flight, and the state is set
    when the provider's promises settle afterwards. *)
Lemma simple_updates_after_unmount :
  let m0 := Simple.mount ready_provider (Resolved (Some NativeNfcManager)) in
  let m1 := Simple.step m0 Simple.Unmount in
  let m2 := Simple.exec m1 [Simple.Settle ready_provider;
                            Simple.Settle ready_provider;
                            Simple.Settle ready_provider] in
  Simple.unmounted (Simple.world m1) = true
  /\ Simple.nfcState (Simple.world m1)
     = Simple.mkNfcState false false None true
  /\ Simple.nfcState (Simple.world m2)
     = Simple.mkNfcState true true None false
  /\ Simple.nfcState (Simple.world m2) <> Simple.nfcState (Simple.world m1)
  /\ states_of (Simple.log (Simple.world m1)) = []
  /\ states_of (Simple.log (Simple.world m2))
     = [Simple.mkNfcState true true None false].
Proof.
  cbn. repeat split. discriminate.
Qed.

(** C10.  In the retry variant the [platform] and [isExpoGo] fields of the
    state the component holds, and of every state it has set, are those
    given at mount, and every step leaves the state as it was or spreads it,
    overwriting [isSupported], [isEnabled], [error] and [loading] only. *)
Theorem platform_and_isExpoGo_are_kept :
  forall (expoGo : bool) (os : string) (p : Provider)
         (loaded : option Manager) (ins : list Retry.Input),
    let m := Retry.exec expoGo (Retry.mount expoGo os p loaded) ins in
    (Retry.platform (Retry.nfcState (Retry.world m)) = os
     /\ Retry.isExpoGo (Retry.nfcState (Retry.world m)) = expoGo)
    /\ Forall (fun s => Retry.platform s = os /\ Retry.isExpoGo s = expoGo)
              (states_of (Retry.log (Retry.world m)))
    /\ forall i,
        let m' := Retry.step expoGo m i in
        Retry.nfcState (Retry.world m') = Retry.nfcState (Retry.world m)
        \/ exists sup en err ld,
            Retry.nfcState (Retry.world m')
            = Retry.spread (Retry.nfcState (Retry.world m)) sup en err ld.
Proof.
  intros expoGo os p loaded ins m.
  assert (Hm : Retry.reachable expoGo os m).
  { apply RetryMachine.exec_reachable, Retry.reach_mount. }
  destruct (RetryMachine.reachable_states
              (expoGo := expoGo) (platformOS := os)
              (fun s => Retry.platform s = os /\ Retry.isExpoGo s = expoGo))
    with (m := m) as [Hs Hl]; auto.
  repeat split; try apply Hs; try assumption.
  intros i m'.
  destruct (RetryMachine.step_shown i Hm)
    as [[Hn _]|(_ & sup & en & err & Hn & _)].
  - left. exact Hn.
  - right. exists sup, en, err, false. exact Hn.
Qed.

(** * Further properties of the code *)

Section MoreAsyncFacts.

Variables (W St : Type) (note : Event St -> W -> W).
Variables R1 R2 : bool -> W -> W -> Prop.

Lemma turns_within_and {A} (t : Async W A) :
  forall w0 w,
    turns_within note R1 t w0 w ->
    turns_within note R2 t w0 w ->
    turns_within note (fun s a b => R1 s a b /\ R2 s a b) t w0 w.
Proof.
  induction t as [a|e|k IH|f k IH|k IH|k IH|q k IH]; cbn; intros w0 w H1 H2;
    auto.
  - destruct H1, H2; auto.
  - destruct H1 as [H1 K1], H2 as [H2 K2]; auto.
Qed.

End MoreAsyncFacts.

Section MoreLogFacts.

Variable St : Type.
Implicit Types l : list (Event St).

Lemma requires_of_app l l' :
  requires_of (l ++ l') = (requires_of l + requires_of l')%nat.
Proof.
  induction l as [|[] l IH]; cbn; rewrite ?IH; reflexivity.
Qed.

Lemma cancels_of_app l l' :
  cancels_of (l ++ l') = (cancels_of l + cancels_of l')%nat.
Proof.
  induction l as [|[] l IH]; cbn; rewrite ?IH; reflexivity.
Qed.

End MoreLogFacts.

Module RetryMoreFacts.
Import Retry RetrySpec RetryMore.

Ltac turn_step :=
  match goal with
  | |- forall _, _ => intro
  | |- _ /\ _ => split
  | w : World |- _ => destruct w
  | |- context [match ?x with _ => _ end] => is_var x; destruct x
  | |- context [deliver _ ?r] => is_var r; destruct r
  | |- context [negb ?b] => is_var b; destruct b
  | |- context [?a <? ?b] => destruct (a <? b) eqn:?
  end.

Ltac turn_cases := unfold checkNfc; repeat (cbn; turn_step).

Ltac log_norm :=
  rewrite ?states_of_app, ?delays_of_app, ?requires_of_app, ?cancels_of_app,
    ?calls_of_app;
  cbn; rewrite ?app_nil_r, ?Nat.add_0_r.

Section Effects.

Variables (expoGo : bool) (platformOS : string).

Lemma checkNfc_keeps (w1 : World) :
  turns_within note (fun _ w0 w => keeps w0 w) (checkNfc expoGo) w1 w1.
Proof.
  unfold keeps.
  destruct expoGo; turn_cases; log_norm; cbn in *; log_norm;
    try discriminate; try congruence; auto.
Qed.

Lemma or_default_not_empty (s d : string) :
  d <> "" -> or_default s d <> "".
Proof. destruct s; cbn; [auto | discriminate]. Qed.

Lemma checkNfc_emits (w1 : World) :
  turns_within note (fun _ w0 w => emits w0 w) (checkNfc expoGo) w1 w1.
Proof.
  unfold emits, settled.
  destruct expoGo; turn_cases; log_norm; cbn in *;
    first [ left; split; reflexivity
          | right; repeat split; cbn; try reflexivity; try discriminate;
            try (intros [= H]; revert H; apply or_default_not_empty;
                 discriminate);
            log_norm; reflexivity ].
Qed.

Ltac count_leaf :=
  repeat split; try reflexivity; try assumption; try lia;
  try (apply Forall_app; split; [assumption | repeat constructor]).

Lemma checkNfc_accounts (w1 : World) :
  turns_within note accounts (checkNfc expoGo) w1 w1.
Proof.
  unfold accounts, counted, bounded, maxRetries.
  destruct expoGo; turn_cases; log_norm; cbn in *;
    repeat match goal with H : _ /\ _ |- _ => destruct H end;
    repeat match goal with
           | H : (_ <? _) = true |- _ => apply Z.ltb_lt in H
           | H : (_ <? _) = false |- _ => apply Z.ltb_ge in H
           end;
    unfold maxRetries in *; subst; rewrite ?length_app;
    cbn [Datatypes.length];
    try solve [ count_leaf | left; count_leaf | right; count_leaf ].
Qed.

Lemma checkNfc_effects (w1 : World) :
  turns_within note turn_effects (checkNfc expoGo) w1 w1.
Proof.
  apply (turns_within_and note (fun _ w0 w => keeps w0 w)
                          (fun s w0 w => emits w0 w /\ accounts s w0 w)).
  - apply checkNfc_keeps.
  - apply (turns_within_and note (fun _ w0 w => emits w0 w) accounts).
    + apply checkNfc_emits.
    + apply checkNfc_accounts.
Qed.

(** *** From turns to the machine *)

Lemma reachable_tasks (m : Machine) :
  reachable expoGo platformOS m ->
  forall t, task m = Some t -> task_within note turn_effects t.
Proof.
  intros Hm. induction Hm as [p loaded|m i Hm IH].
  - unfold mount, start_task.
    pose proof (advance_within note _ p (checkNfc expoGo) _ _
                  (checkNfc_effects (initial_world expoGo platformOS loaded)))
      as [_ Ht].
    destruct (advance note p (checkNfc expoGo)
                      (initial_world expoGo platformOS loaded)).
    exact Ht.
  - destruct i as [p|p|]; cbn [step].
    + destruct (task m) as [t|] eqn:Et; [|rewrite Et; discriminate].
      pose proof (resume_within note _ p t (world m) (IH t eq_refl))
        as [_ Ht].
      destruct (resume note p t (world m)). exact Ht.
    + destruct (task m) as [t|] eqn:Et; [rewrite Et; exact IH|].
      destruct (timers (world m)); [rewrite Et; discriminate|].
      unfold start_task.
      pose proof (advance_within note _ p (checkNfc expoGo) _ _
                    (checkNfc_effects (fire (world m)))) as [_ Ht].
      destruct (advance note p (checkNfc expoGo) (fire (world m))).
      exact Ht.
    + destruct (isMounted (world m)); exact IH.
Qed.

(** What the first turn does. *)
Lemma mount_effects (p : Provider) (loaded : option Manager) :
  let m := mount expoGo platformOS p loaded in
  turn_effects (suspended (task m))
               (initial_world expoGo platformOS loaded) (world m).
Proof.
  unfold mount, start_task.
  pose proof (advance_within note _ p (checkNfc expoGo) _ _
                (checkNfc_effects (initial_world expoGo platformOS loaded)))
    as [Hr _].
  destruct (advance note p (checkNfc expoGo)
                    (initial_world expoGo platformOS loaded)).
  exact Hr.
Qed.

Lemma step_effects (m : Machine) (i : Input) :
  reachable expoGo platformOS m ->
  step_kind m (step expoGo m i).
Proof.
  intros Hm.
  pose proof (reachable_tasks Hm) as Ht.
  destruct (RetryMachine.reachable_discipline Hm) as [Hd _].
  unfold discipline in Hd.
  destruct i as [p|p|]; cbn [step].
  - destruct (task m) as [t|] eqn:Et; [|apply step_idle; reflexivity].
    apply step_turn; [rewrite Et; discriminate|].
    pose proof (resume_within note _ p t (world m) (Ht t eq_refl))
      as [Hr _].
    destruct (resume note p t (world m)). exact Hr.
  - destruct (task m) as [t|] eqn:Et; [apply step_idle; reflexivity|].
    destruct (timers (world m)) as [|id rest] eqn:Etm;
      [apply step_idle; reflexivity|].
    assert (rest = []) as ->.
    { destruct Hd as [H|(id' & H & _)]; rewrite Etm in H;
        [discriminate|]. injection H as _ ->. reflexivity. }
    apply step_fire with (id := id); [assumption | assumption |].
    unfold start_task.
    pose proof (advance_within note _ p (checkNfc expoGo) _ _
                  (checkNfc_effects (fire (world m)))) as [Hr _].
    destruct (advance note p (checkNfc expoGo) (fire (world m))).
    exact Hr.
  - destruct (isMounted (world m)) eqn:Em; [|apply step_idle; reflexivity].
    apply step_unmount; [assumption | reflexivity].
Qed.

(** An invariant of the machine, from what it does at mount, at unmount, in
    a turn, and when the timer fires. *)
Lemma machine_invariant (I : Machine -> Prop) :
  (forall p loaded, I (mount expoGo platformOS p loaded)) ->
  (forall m m', reachable expoGo platformOS m -> I m ->
                step_kind m m' -> I m') ->
  forall m, reachable expoGo platformOS m -> I m.
Proof.
  intros Hmount Hstep m Hm.
  induction Hm as [p loaded|m i Hm IH]; [apply Hmount|].
  apply (Hstep m); [assumption | assumption | apply step_effects, Hm].
Qed.

(** The cleanup and the firing of the timer. *)
Lemma cleanup_keeps_count (w : World) :
  retryCount (cleanup w) = retryCount w
  /\ delays_of (log (cleanup w)) = delays_of (log w)
  /\ states_of (log (cleanup w)) = states_of (log w)
  /\ requires_of (log (cleanup w)) = requires_of (log w)
  /\ nfcState (cleanup w) = nfcState w
  /\ NfcManager (cleanup w) = NfcManager w
  /\ isInitializing (cleanup w) = isInitializing w.
Proof.
  unfold cleanup. destruct w; cbn.
  destruct retryTimeout0, NfcManager0; cbn; log_norm; repeat split.
Qed.

Lemma cleanup_cancels (w : World) :
  cancels_of (log (cleanup w))
  = (cancels_of (log w)
     + match NfcManager w with Some _ => 1 | None => 0 end)%nat.
Proof.
  unfold cleanup. destruct w; cbn.
  destruct retryTimeout0, NfcManager0; cbn; log_norm; reflexivity.
Qed.

Lemma counted_bounded (w : World) : counted w -> bounded w.
Proof.
  unfold counted, bounded, maxRetries. intros (H1 & H2 & H3).
  repeat split; try assumption; lia.
Qed.

(** [retryCount.current] stays within [0 .. maxRetries] and counts the
    timers scheduled, until a success resets it. *)
Lemma reachable_accounted (m : Machine) :
  reachable expoGo platformOS m -> accounted m.
Proof.
  revert m. apply (machine_invariant accounted).
  - intros p loaded.
    destruct (mount_effects p loaded) as (_ & _ & Ha).
    unfold accounted.
    destruct (task (mount expoGo platformOS p loaded)); apply Ha;
      unfold counted, maxRetries; cbn; repeat split; try lia; constructor.
  - intros m m' Hm Hi [->|Hu ->|Ht (_ & _ & Ha)|id Ht Htm (_ & _ & Ha)];
      unfold accounted in *.
    + exact Hi.
    + cbn [task world].
      destruct (cleanup_keeps_count (world m)) as (Hrc & Hd & _).
      assert (Hc : forall w, counted w ->
                             retryCount (cleanup w) = retryCount w ->
                             delays_of (log (cleanup w)) = delays_of (log w) ->
                             counted (cleanup w)).
      { unfold counted. intros w H E1 E2. rewrite E1, E2. exact H. }
      assert (Hb : timers (cleanup (world m)) = []).
      { apply RetryMachine.cleanup_timers.
        destruct (RetryMachine.reachable_discipline Hm) as [Hdis _].
        unfold discipline in Hdis.
        destruct (task m); [left|]; assumption. }
      assert (Hk : forall w, bounded w ->
                             retryCount (cleanup w) = retryCount w ->
                             delays_of (log (cleanup w)) = delays_of (log w) ->
                             bounded (cleanup w)).
      { unfold bounded. intros w H E1 E2. rewrite E1, E2. exact H. }
      destruct (task m).
      * destruct Hi as [Hi _]. split; [apply Hc|]; assumption.
      * right. split; [assumption|].
        destruct Hi as [Hi|[_ Hi]];
          [apply counted_bounded, Hc | apply Hk]; assumption.
    + destruct (task m) as [t|]; [|contradiction].
      destruct Hi as [Hc Htm]. specialize (Ha Hc Htm).
      destruct (task m'); exact Ha.
    + rewrite Ht in Hi.
      destruct Hi as [Hc|[Hnil _]]; [|rewrite Htm in Hnil; discriminate].
      assert (Hf : counted (fire (world m))) by exact Hc.
      assert (Hn : timers (fire (world m)) = [])
        by (unfold fire; cbn; rewrite Htm; reflexivity).
      specialize (Ha Hf Hn).
      destruct (task m'); exact Ha.
Qed.

Lemma fire_keeps (w : World) :
  NfcManager (fire w) = NfcManager w
  /\ isInitializing (fire w) = isInitializing w
  /\ isMounted (fire w) = isMounted w
  /\ nfcState (fire w) = nfcState w
  /\ log (fire w) = log w.
Proof. repeat split. Qed.

Lemma reachable_kept (m : Machine) :
  reachable expoGo platformOS m -> kept m.
Proof.
  revert m. apply (machine_invariant kept); unfold kept.
  - intros p loaded.
    destruct (mount_effects p loaded) as ((Hm & Hi & _ & Hc) & _).
    rewrite Hc. cbn. repeat split; auto.
  - intros m m' Hm (Hi & Hc & Hle)
           [->|Hu ->|_ ((Em & Ei & _ & Ec) & _)|id _ _ ((Em & Ei & _ & Ec) & _)].
    + auto.
    + cbn [world].
      destruct (cleanup_keeps_count (world m)) as (_ & _ & _ & _ & _ & _ & E).
      rewrite E, cleanup_cancels, RetryMachine.cleanup_unmounts, (Hc Hu).
      repeat split; [assumption | discriminate |].
      destruct (NfcManager (world m)); cbn; lia.
    + rewrite Em, Ec. auto.
    + rewrite Em, Ec. cbn. auto.
Qed.

Lemma emits_latest (initial : NfcState) (w0 w : World) :
  emits w0 w ->
  latest initial w0 /\ Forall settled (states_of (log w0)) ->
  latest initial w /\ Forall settled (states_of (log w)).
Proof.
  intros [[Hn Hl]|(_ & Hs & Hl)] [H0 Hf].
  - unfold latest in *. rewrite Hn, Hl. auto.
  - split.
    + right. exists (states_of (log w0)). exact Hl.
    + rewrite Hl. apply Forall_app. auto.
Qed.

Lemma reachable_shows_latest (m : Machine) :
  reachable expoGo platformOS m ->
  shows_latest (nfcState (initial_world expoGo platformOS None)) m.
Proof.
  revert m.
  apply (machine_invariant
           (shows_latest (nfcState (initial_world expoGo platformOS None))));
    unfold shows_latest.
  - intros p loaded.
    destruct (mount_effects p loaded) as (_ & He & _).
    apply (emits_latest He). split; [left; split; reflexivity|].
    constructor.
  - intros m m' Hm Hi [->|Hu ->|_ (_ & He & _)|id _ _ (_ & He & _)].
    + exact Hi.
    + cbn [world]. unfold latest in *.
      destruct (cleanup_keeps_count (world m))
        as (_ & _ & El & _ & En & _ & _).
      rewrite En, El. exact Hi.
    + apply (emits_latest He), Hi.
    + apply (emits_latest He). exact Hi.
Qed.

(** Once loaded, the manager stays and [require] is not called again. *)
Lemma loaded_step (m : Machine) (i : Input) (mgr : Manager) :
  reachable expoGo platformOS m ->
  NfcManager (world m) = Some mgr ->
  NfcManager (world (step expoGo m i)) = Some mgr
  /\ requires_of (log (world (step expoGo m i)))
     = requires_of (log (world m)).
Proof.
  intros Hm Hl.
  destruct (step_effects i Hm)
    as [->|Hu ->|_ ((_ & _ & Hk & _) & _)|id _ _ ((_ & _ & Hk & _) & _)].
  - auto.
  - cbn [world].
    destruct (cleanup_keeps_count (world m)) as (_ & _ & _ & Er & _ & En & _).
    rewrite En, Er. auto.
  - apply Hk, Hl.
  - apply (Hk mgr Hl).
Qed.

Lemma loaded_exec (ins : list Input) (mgr : Manager) :
  forall m,
    reachable expoGo platformOS m ->
    NfcManager (world m) = Some mgr ->
    NfcManager (world (exec expoGo m ins)) = Some mgr
    /\ requires_of (log (world (exec expoGo m ins)))
       = requires_of (log (world m)).
Proof.
  induction ins as [|i ins IH]; intros m Hm Hl; [cbn; auto|].
  change (exec expoGo m (i :: ins)) with (exec expoGo (step expoGo m i) ins).
  destruct (loaded_step i Hm Hl) as [H1 H2].
  destruct (IH (step expoGo m i)) as [H3 H4];
    [apply reach_step; assumption | assumption |].
  rewrite H4, H2. auto.
Qed.

End Effects.

End RetryMoreFacts.

Module SimpleMoreFacts.
Import Simple SimpleSpec SimpleMore.

Ltac turn_step :=
  match goal with
  | |- forall _, _ => intro
  | |- _ /\ _ => split
  | w : World |- _ => destruct w
  | |- context [match ?x with _ => _ end] => is_var x; destruct x
  | |- context [deliver _ ?r] => is_var r; destruct r
  end.

Ltac turn_cases := unfold checkNfc; repeat (cbn; turn_step).

Ltac log_norm :=
  rewrite ?states_of_app, ?delays_of_app, ?requires_of_app, ?cancels_of_app,
    ?calls_of_app;
  cbn; rewrite ?app_nil_r, ?Nat.add_0_r.

Lemma simple_checkNfc_effects (w1 : World) :
  turns_within note turn_effects checkNfc w1 w1.
Proof.
  unfold turn_effects, keeps, emits, settled.
  turn_cases; log_norm; try reflexivity;
    first [ left; split; reflexivity
          | right; repeat split; cbn; try reflexivity; try discriminate;
            try (intros [= H]; revert H;
                 apply RetryMoreFacts.or_default_not_empty; discriminate);
            log_norm; reflexivity ].
Qed.

Lemma simple_reachable_tasks (m : Machine) :
  reachable m ->
  forall t, task m = Some t -> task_within note turn_effects t.
Proof.
  intros Hm. induction Hm as [p r|m i Hm IH].
  - unfold mount.
    pose proof (advance_within note _ p checkNfc _ _
                  (simple_checkNfc_effects (initial_world r))) as [_ Ht].
    destruct (advance note p checkNfc (initial_world r)). exact Ht.
  - destruct i as [p|]; cbn [step].
    + destruct (task m) as [t|] eqn:Et; [|rewrite Et; discriminate].
      pose proof (resume_within note _ p t (world m) (IH t eq_refl))
        as [_ Ht].
      destruct (resume note p t (world m)). exact Ht.
    + destruct (unmounted (world m)); exact IH.
Qed.

Lemma simple_mount_effects (p : Provider) (r : Settled (option Manager)) :
  turn_effects (suspended (task (mount p r))) (initial_world r)
               (world (mount p r)).
Proof.
  unfold mount.
  pose proof (advance_within note _ p checkNfc _ _
                (simple_checkNfc_effects (initial_world r))) as [Hr _].
  destruct (advance note p checkNfc (initial_world r)). exact Hr.
Qed.

Lemma simple_step_effects (m : Machine) (i : Input) :
  reachable m -> step_kind m (step m i).
Proof.
  intros Hm. pose proof (simple_reachable_tasks Hm) as Ht.
  destruct i as [p|]; cbn [step].
  - destruct (task m) as [t|] eqn:Et; [|apply simple_step_idle; reflexivity].
    apply simple_step_turn; [rewrite Et; discriminate|].
    pose proof (resume_within note _ p t (world m) (Ht t eq_refl))
      as [Hr _].
    destruct (resume note p t (world m)). exact Hr.
  - destruct (unmounted (world m)) eqn:Eu; [apply simple_step_idle; reflexivity|].
    apply simple_step_unmount; [assumption | reflexivity].
Qed.

Lemma simple_machine_invariant (I : Machine -> Prop) :
  (forall p r, I (mount p r)) ->
  (forall m m', reachable m -> I m -> step_kind m m' -> I m') ->
  forall m, reachable m -> I m.
Proof.
  intros Hmount Hstep m Hm.
  induction Hm as [p r|m i Hm IH]; [apply Hmount|].
  apply (Hstep m); [assumption | assumption | apply simple_step_effects, Hm].
Qed.

Lemma cleanup_effects (w : World) :
  NfcManager (cleanup w) = NfcManager w
  /\ nfcState (cleanup w) = nfcState w
  /\ unmounted (cleanup w) = true
  /\ states_of (log (cleanup w)) = states_of (log w)
  /\ delays_of (log (cleanup w)) = delays_of (log w)
  /\ cancels_of (log (cleanup w))
     = (cancels_of (log w)
        + match NfcManager w with Some _ => 1 | None => 0 end)%nat.
Proof.
  unfold cleanup. destruct w; cbn.
  destruct NfcManager0; cbn; log_norm; repeat split.
Qed.

Lemma simple_reachable_kept (r : Settled (option Manager)) (m : Machine) :
  (exists p ins, m = exec (mount p r) ins) -> kept (load_module r) m.
Proof.
  intros (p & ins & ->).
  assert (H : forall m,
             reachable m -> kept (load_module r) m ->
             kept (load_module r) (exec m ins)).
  { induction ins as [|i ins IH]; intros m Hm Hk; [exact Hk|].
    change (exec m (i :: ins)) with (exec (step m i) ins).
    apply IH; [apply reach_step, Hm|].
    unfold kept in *. destruct Hk as (Hl & Hd & Hc & Hle).
    destruct (simple_step_effects i Hm)
      as [->|Hu ->|_ ((Eu & En & Ec & Ed) & _)].
    - auto.
    - cbn [world].
      destruct (cleanup_effects (world m)) as (E1 & _ & E3 & _ & E5 & E6).
      rewrite E1, E3, E5, E6, (Hc Hu).
      repeat split; try assumption; [discriminate|].
      destruct (NfcManager (world m)); cbn; lia.
    - rewrite Eu, En, Ec, Ed. auto. }
  apply H; [apply reach_mount|].
  destruct (simple_mount_effects p r) as ((Eu & En & Ec & Ed) & _).
  unfold kept. rewrite En, Ed, Ec. cbn. repeat split; auto.
Qed.

Lemma simple_emits_latest (initial : NfcState) (w0 w : World) :
  emits w0 w ->
  latest initial w0 /\ Forall settled (states_of (log w0)) ->
  latest initial w /\ Forall settled (states_of (log w)).
Proof.
  intros [[Hn Hl]|(Hs & Hl)] [H0 Hf].
  - unfold latest in *. rewrite Hn, Hl. auto.
  - split.
    + right. exists (states_of (log w0)). exact Hl.
    + rewrite Hl. apply Forall_app. auto.
Qed.

Lemma simple_reachable_shows_latest (m : Machine) :
  reachable m -> shows_latest (mkNfcState false false None true) m.
Proof.
  revert m.
  apply (simple_machine_invariant (shows_latest (mkNfcState false false None true)));
    unfold shows_latest.
  - intros p r.
    destruct (simple_mount_effects p r) as (_ & He).
    apply (simple_emits_latest He). split; [left; split; reflexivity|].
    constructor.
  - intros m m' Hm Hi [->|Hu ->|_ (_ & He)].
    + exact Hi.
    + cbn [world]. unfold latest in *.
      destruct (cleanup_effects (world m)) as (_ & En & _ & El & _).
      rewrite En, El. exact Hi.
    + apply (simple_emits_latest He), Hi.
Qed.

End SimpleMoreFacts.

(** ** Properties of the whole component *)

(** X1.  In every execution of the retry variant, with the component
    unmounted at any point or not, [retryCount.current] stays between 0 and
    [maxRetries], at most three timers are ever scheduled, and each is
    scheduled for 2000 ms. *)
Theorem retries_never_exceed_three :
  forall (expoGo : bool) (os : string) (p : Provider)
         (loaded : option Manager) (ins : list Retry.Input),
    let w := Retry.world
               (Retry.exec expoGo (Retry.mount expoGo os p loaded) ins) in
    0 <= Retry.retryCount w <= Retry.maxRetries
    /\ (length (delays_of (Retry.log w)) <= 3)%nat
    /\ Forall (fun d => d = 2000) (delays_of (Retry.log w)).
Proof.
  intros expoGo os p loaded ins w.
  assert (Hm : Retry.reachable
                 expoGo os
                 (Retry.exec expoGo (Retry.mount expoGo os p loaded) ins)).
  { apply RetryMachine.exec_reachable, Retry.reach_mount. }
  pose proof (RetryMoreFacts.reachable_accounted Hm) as Ha.
  unfold RetryMore.accounted in Ha. fold w in Ha.
  assert (Hb : RetryMore.bounded w).
  { destruct (Retry.task _).
    - apply RetryMoreFacts.counted_bounded, Ha.
    - destruct Ha as [Ha|[_ Ha]];
        [apply RetryMoreFacts.counted_bounded|]; assumption. }
  exact Hb.
Qed.

(** X2.  Once the module-level [NfcManager] holds a manager, it holds the
    same manager for the rest of the execution and [require] is not called
    again. *)
Theorem manager_is_loaded_once :
  forall (expoGo : bool) (os : string) (p : Provider)
         (loaded : option Manager) (before after : list Retry.Input)
         (mgr : Manager),
    let m := Retry.exec expoGo (Retry.mount expoGo os p loaded) before in
    Retry.NfcManager (Retry.world m) = Some mgr ->
    let m' := Retry.exec expoGo m after in
    Retry.NfcManager (Retry.world m') = Some mgr
    /\ requires_of (Retry.log (Retry.world m'))
       = requires_of (Retry.log (Retry.world m)).
Proof.
  intros expoGo os p loaded before after mgr m Hl m'.
  apply (RetryMoreFacts.loaded_exec (platformOS := os)); [|assumption].
  apply RetryMachine.exec_reachable, Retry.reach_mount.
Qed.

Lemma manager_is_loaded_once_witness :
  let m := Retry.mount false "android" failing_provider None in
  let m' := Retry.exec false m [Retry.Settle failing_provider;
                                Retry.Settle failing_provider;
                                Retry.Fire failing_provider;
                                Retry.Settle failing_provider] in
  Retry.NfcManager (Retry.world m') = Some NativeNfcManager
  /\ requires_of (Retry.log (Retry.world m'))
     = requires_of (Retry.log (Retry.world m)).
Proof.
  apply (@manager_is_loaded_once false "android" failing_provider None []
           [Retry.Settle failing_provider; Retry.Settle failing_provider;
            Retry.Fire failing_provider; Retry.Settle failing_provider]
           NativeNfcManager).
  reflexivity.
Defined.

(** X3.  Whenever the event loop has control, [isInitializing] is false: a
    call of [initializeNfcManager] never finds an initialization in
    progress, so its [return initPromise] is never reached. *)
Theorem initialization_is_never_in_progress :
  forall (expoGo : bool) (os : string) (p : Provider)
         (loaded : option Manager) (ins : list Retry.Input),
    Retry.isInitializing
      (Retry.world (Retry.exec expoGo (Retry.mount expoGo os p loaded) ins))
    = false.
Proof.
  intros expoGo os p loaded ins.
  apply (RetryMoreFacts.reachable_kept (expoGo := expoGo) (platformOS := os)).
  apply RetryMachine.exec_reachable, Retry.reach_mount.
Qed.

(** X4.  In both variants [cancelTechnologyRequest] is requested at most
    once in an execution, never before the cleanup, and by the cleanup
    exactly when the module-level [NfcManager] holds a manager. *)
Theorem cancel_is_requested_at_most_once :
  (forall (expoGo : bool) (os : string) (p : Provider)
          (loaded : option Manager) (ins : list Retry.Input),
      let m := Retry.exec expoGo (Retry.mount expoGo os p loaded) ins in
      let w := Retry.world m in
      (cancels_of (Retry.log w) <= 1)%nat
      /\ (Retry.isMounted w = true -> cancels_of (Retry.log w) = O)
      /\ cancels_of (Retry.log (Retry.world (Retry.step expoGo m Retry.Unmount)))
         = (cancels_of (Retry.log w)
            + if Retry.isMounted w
              then match Retry.NfcManager w with Some _ => 1 | None => 0 end
              else 0)%nat)
  /\ (forall (p : Provider) (r : Settled (option Manager))
             (ins : list Simple.Input),
      let m := Simple.exec (Simple.mount p r) ins in
      let w := Simple.world m in
      (cancels_of (Simple.log w) <= 1)%nat
      /\ (Simple.unmounted w = false -> cancels_of (Simple.log w) = O)
      /\ cancels_of (Simple.log (Simple.world (Simple.step m Simple.Unmount)))
         = (cancels_of (Simple.log w)
            + if Simple.unmounted w
              then 0
              else match Simple.load_module r with
                   | Some _ => 1
                   | None => 0
                   end)%nat).
Proof.
  split.
  - intros expoGo os p loaded ins m w.
    assert (Hm : Retry.reachable expoGo os m).
    { apply RetryMachine.exec_reachable, Retry.reach_mount. }
    destruct (RetryMoreFacts.reachable_kept Hm) as (_ & Hc & Hle).
    fold w in Hc, Hle. repeat split; try assumption.
    cbn [Retry.step]. fold w.
    destruct (Retry.isMounted w); cbn [Retry.world].
    + apply RetryMoreFacts.cleanup_cancels.
    + fold w. lia.
  - intros p r ins m w.
    destruct (@SimpleMoreFacts.simple_reachable_kept r m)
      as (Hl & _ & Hc & Hle).
    { exists p, ins. reflexivity. }
    fold w in Hl, Hc, Hle. repeat split; try assumption.
    cbn [Simple.step]. fold w.
    destruct (Simple.unmounted w); cbn [Simple.world].
    + fold w. lia.
    + destruct (SimpleMoreFacts.cleanup_effects w)
        as (_ & _ & _ & _ & _ & E).
      rewrite E, Hl. reflexivity.
Qed.

(** X5.  In both variants, in every execution, every state passed to
    [setNfcState] has [loading] false and an error that, if there is one, is
    not the empty string; in the retry variant a state passed without an
    error is supported and enabled. *)
Theorem set_states_are_settled :
  (forall (expoGo : bool) (os : string) (p : Provider)
          (loaded : option Manager) (ins : list Retry.Input),
      Forall RetryMore.settled
             (states_of
                (Retry.log
                   (Retry.world
                      (Retry.exec expoGo (Retry.mount expoGo os p loaded)
                                  ins)))))
  /\ (forall (p : Provider) (r : Settled (option Manager))
             (ins : list Simple.Input),
      Forall SimpleMore.settled
             (states_of
                (Simple.log
                   (Simple.world (Simple.exec (Simple.mount p r) ins))))).
Proof.
  split.
  - intros expoGo os p loaded ins.
    apply (RetryMoreFacts.reachable_shows_latest
             (expoGo := expoGo) (platformOS := os)).
    apply RetryMachine.exec_reachable, Retry.reach_mount.
  - intros p r ins.
    apply SimpleMoreFacts.simple_reachable_shows_latest.
    apply SimpleFacts.simple_exec_reachable, Simple.reach_mount.
Qed.

(** X6.  What the retry variant shows in any state it can be in once
    loading is over: the title, the platform and Expo Go lines, then the
    error line if the state has an error, and otherwise "NFC supported: Yes"
    and "NFC Enabled: Yes" followed by the ready text.  No error is ever
    dropped, and the lines "NFC supported: No" and "NFC Enabled: No" are
    never shown. *)
Theorem retry_screen_after_loading :
  forall (expoGo : bool) (os : string) (p : Provider)
         (loaded : option Manager) (ins : list Retry.Input),
    let s := Retry.nfcState
               (Retry.world
                  (Retry.exec expoGo (Retry.mount expoGo os p loaded) ins)) in
    Retry.loading s = false ->
    View.children_of (View.render_retry s)
    = ([ View.text "title" "NFC Tag Counter";
         View.text "text" ("Platform: " ++ os);
         View.text "text" ("Running in Expo Go: " ++ View.yes_no expoGo) ]
       ++ match Retry.error s with
          | Some e =>
              [ View.text "errorText" ("Error: " ++ e);
                if Retry.isSupported s && Retry.isEnabled s
                then View.text "readyText" "Ready to scan NFC tags"
                else View.text
                       "noReadyText"
                       (if expoGo
                        then "Please use a development build to enable NFC"
                        else "NFC is not available or not enabled") ]
          | None =>
              [ View.text "text" "NFC supported: Yes";
                View.text "text" "NFC Enabled: Yes";
                View.text "readyText" "Ready to scan NFC tags" ]
          end
       ++ [ View.text "welcomeText" "HELLO WORLD" ])%list.
Proof.
  intros expoGo os p loaded ins s Hload.
  assert (Hm : Retry.reachable
                 expoGo os
                 (Retry.exec expoGo (Retry.mount expoGo os p loaded) ins)).
  { apply RetryMachine.exec_reachable, Retry.reach_mount. }
  destruct (RetryMachine.reachable_states
              (expoGo := expoGo) (platformOS := os)
              (fun s => Retry.platform s = os /\ Retry.isExpoGo s = expoGo))
    with (m := Retry.exec expoGo (Retry.mount expoGo os p loaded) ins)
    as [[Hp He] _]; auto.
  assert (Hs : RetryMore.settled s).
  { destruct (RetryMoreFacts.reachable_shows_latest Hm)
      as [[[Hn _]|(earlier & Hl)] Hf].
    - fold s in Hn. rewrite Hn in Hload. discriminate.
    - rewrite Hl in Hf. apply Forall_app in Hf. destruct Hf as [_ Hf].
      inversion Hf; assumption. }
  fold s in Hp, He. destruct Hs as (_ & Hne & Hok).
  destruct s as [sup en err ld pf ex]; cbn in *. subst ld pf ex.
  unfold View.render_retry, View.screen; cbn.
  destruct err as [[|c rest]|].
  - contradiction Hne; reflexivity.
  - reflexivity.
  - destruct (Hok eq_refl) as [-> ->]. reflexivity.
Qed.

Lemma retry_screen_after_loading_witness :
  View.children_of
    (View.render_retry
       (Retry.nfcState
          (Retry.world
             (Retry.exec false (Retry.mount false "android" absent_provider None)
                         [Retry.Settle absent_provider;
                          Retry.Settle absent_provider]))))
  = [ View.text "title" "NFC Tag Counter";
      View.text "text" "Platform: android";
      View.text "text" "Running in Expo Go: No";
      View.text "errorText" "Error: This device does not have NFC hardware";
      View.text "noReadyText" "NFC is not available or not enabled";
      View.text "welcomeText" "HELLO WORLD" ].
Proof.
  apply (retry_screen_after_loading
           false "android" absent_provider None
           [Retry.Settle absent_provider; Retry.Settle absent_provider]).
  reflexivity.
Defined.

(** X7.  In both variants, when [start()] fails after [isSupported()] and
    [isEnabled()] resolved true, the screen shows the start error and, below
    it, "Ready to scan NFC tags". *)
Theorem start_failure_still_shows_ready :
  (forall (p : Provider) (w : Retry.World) (m : Manager) (e : JsError),
      RetrySpec.fresh w ->
      RetrySpec.acquired (Retry.NfcManager w) p = Resolved m ->
      isSupported_result p = Resolved true ->
      isEnabled_result p = Resolved true ->
      start_result p = Rejected e ->
      let shown := View.children_of
                     (View.render_retry
                        (Retry.nfcState (Retry.attempt false p w))) in
      In (View.text "errorText" ("Error: Failed to start NFC: " ++ message e))
         shown
      /\ In (View.text "readyText" "Ready to scan NFC tags") shown)
  /\ (forall (os : string) (p : Provider) (w : Simple.World) (m : Manager)
             (e : JsError),
      Simple.NfcManager w = Some m ->
      isSupported_result p = Resolved true ->
      isEnabled_result p = Resolved true ->
      start_result p = Rejected e ->
      let shown := View.children_of
                     (View.render_simple
                        os (Simple.nfcState (Simple.attempt p w))) in
      In (View.text "errorText" ("Error: Failed to start NFC: " ++ message e))
         shown
      /\ In (View.text "readyText" "Ready to scan NFC tags") shown).
Proof.
  split.
  - intros p w m e Hw Ha Hs He Hst.
    destruct (attempt_settled (v := StartFailed e) p Hw) as (H & _);
      [|reflexivity|].
    { unfold RetrySpec.verdict, first_stop. rewrite Ha, Hs, He, Hst.
      reflexivity. }
    cbv zeta. rewrite H.
    unfold View.render_retry, View.screen; cbn. auto 10.
  - intros os p w m e Hm Hs He Hst.
    destruct (SimpleFacts.simple_attempt_facts p w) as (H & _).
    cbv zeta. rewrite H. unfold SimpleSpec.verdict, first_stop.
    rewrite Hm, Hs, He, Hst.
    unfold View.render_simple, View.screen; cbn. auto 10.
Qed.

Lemma start_failure_still_shows_ready_witness :
  (let shown := View.children_of
                  (View.render_retry
                     (Retry.nfcState
                        (Retry.attempt
                           false busy_provider
                           (Retry.initial_world false "android" None)))) in
   In (View.text "errorText" "Error: Failed to start NFC: busy") shown
   /\ In (View.text "readyText" "Ready to scan NFC tags") shown)
  /\ (let shown := View.children_of
                     (View.render_simple
                        "android"
                        (Simple.nfcState
                           (Simple.attempt
                              busy_provider
                              (Simple.initial_world
                                 (Resolved (Some NativeNfcManager)))))) in
      In (View.text "errorText" "Error: Failed to start NFC: busy") shown
      /\ In (View.text "readyText" "Ready to scan NFC tags") shown).
Proof.
  split.
  - apply (proj1 start_failure_still_shows_ready busy_provider
                 (Retry.initial_world false "android" None)
                 NativeNfcManager (Error "busy"));
      repeat split; reflexivity.
  - apply (proj2 start_failure_still_shows_ready "android" busy_provider
                 (Simple.initial_world (Resolved (Some NativeNfcManager)))
                 NativeNfcManager (Error "busy")); reflexivity.
Defined.

(** X8.  The simple variant shows a step that answers no as a status line,
    not as an error: with [isSupported()] false the screen has
    "NFC supported: No" and no line about enabling; with [isSupported()]
    true and [isEnabled()] false it has "NFC supported: Yes" and
    "NFC Enabled: No". *)
Theorem simple_screen_of_negative_answers :
  forall (os : string) (p : Provider) (w : Simple.World) (m : Manager),
    Simple.NfcManager w = Some m ->
    let shown := View.children_of
                   (View.render_simple
                      os (Simple.nfcState (Simple.attempt p w))) in
    (isSupported_result p = Resolved false ->
     shown = [ View.text "title" "NFC Tag Counter";
               View.text "text" ("Platform: " ++ os);
               View.text "text" "NFC supported: No";
               View.text "noReadyText" "NFC is not available or not enabled";
               View.text "welcomeText" "HELLO WORLD" ])
    /\ (isSupported_result p = Resolved true ->
        isEnabled_result p = Resolved false ->
        shown = [ View.text "title" "NFC Tag Counter";
                  View.text "text" ("Platform: " ++ os);
                  View.text "text" "NFC supported: Yes";
                  View.text "text" "NFC Enabled: No";
                  View.text "noReadyText"
                            "NFC is not available or not enabled";
                  View.text "welcomeText" "HELLO WORLD" ]).
Proof.
  intros os p w m Hm shown. subst shown.
  destruct (SimpleFacts.simple_attempt_facts p w) as (H & _).
  rewrite H. unfold SimpleSpec.verdict, first_stop. rewrite Hm.
  split.
  - intros Hs. rewrite Hs. reflexivity.
  - intros Hs He. rewrite Hs, He. reflexivity.
Qed.

Lemma simple_screen_of_negative_answers_witness :
  View.children_of
    (View.render_simple
       "ios"
       (Simple.nfcState
          (Simple.attempt
             disabled_provider
             (Simple.initial_world (Resolved (Some NativeNfcManager))))))
  = [ View.text "title" "NFC Tag Counter";
      View.text "text" "Platform: ios";
      View.text "text" "NFC supported: Yes";
      View.text "text" "NFC Enabled: No";
      View.text "noReadyText" "NFC is not available or not enabled";
      View.text "welcomeText" "HELLO WORLD" ].
Proof.
  apply (proj2 (@simple_screen_of_negative_answers
                  "ios" disabled_provider
                  (Simple.initial_world (Resolved (Some NativeNfcManager)))
                  NativeNfcManager eq_refl));
    reflexivity.
Defined.

(** X9.  Whatever the state, the wrapper has a style of the sheet, and so
    has every line shown exactly when loading is over: the line shown while
    loading, "Checking capabilities...", has none, the sheet having no
    [loading] key. *)
Theorem only_the_loading_line_is_unstyled :
  (forall s : Retry.NfcState,
      View.has_style (View.render_retry s) = true
      /\ forallb View.has_style (View.children_of (View.render_retry s))
         = negb (Retry.loading s))
  /\ (forall (os : string) (s : Simple.NfcState),
      View.has_style (View.render_simple os s) = true
      /\ forallb View.has_style
                 (View.children_of (View.render_simple os s))
         = negb (Simple.loading s)).
Proof.
  split.
  - intros [sup en err ld pf ex]. split; [reflexivity|].
    destruct ld; [reflexivity|].
    destruct err as [[|c rest]|], sup, en; reflexivity.
  - intros os [sup en err ld]. split; [reflexivity|].
    destruct ld; [reflexivity|].
    destruct err as [[|c rest]|], sup, en; reflexivity.
Qed.

(** X10.  Unmounting the retry variant does not stop a run that is under
    way: whenever the cleanup happens, after [k] of the run's awaits have
    settled, the run goes on to call every provider method that an
    uninterrupted run calls, [start()] included, and the timer it may have
    armed is cleared. *)
Theorem unmounted_run_still_drives_the_provider :
  forall (os : string) (p : Provider) (loaded : option Manager) (k : nat),
    let m := Retry.exec
               false (Retry.mount false os p loaded)
               (repeat (Retry.Settle p) k
                ++ Retry.Unmount :: repeat (Retry.Settle p) 4)%list in
    Retry.task m = None
    /\ Retry.isMounted (Retry.world m) = false
    /\ Retry.timers (Retry.world m) = []
    /\ calls_of (Retry.log (Retry.world m)) = RetrySpec.run_calls loaded p.
Proof.
  intros os p loaded k.
  assert (Hidle : forall j m, Retry.task m = None ->
                              Retry.exec false m (repeat (Retry.Settle p) j)
                              = m).
  { induction j as [|j IH]; intros m Hm; [reflexivity|].
    cbn [repeat]. unfold Retry.exec in *. cbn [fold_left Retry.step].
    rewrite Hm. apply IH, Hm. }
  assert (Hdone : Retry.task
                    (Retry.exec false (Retry.mount false os p loaded)
                                (repeat (Retry.Settle p) 4)) = None).
  { destruct p as [rq sup en sta].
    destruct loaded as [m0|]; [|destruct rq as [[m0|]|e]];
      (destruct sup as [[|]|e1]; [destruct en as [[|]|e2];
                                  [destruct sta as [[]|e3]| |]| |]);
      reflexivity. }
  assert (Hk : k = O \/ k = 1%nat \/ k = 2%nat \/ k = 3%nat
               \/ exists j, k = (4 + j)%nat).
  { destruct k as [|[|[|[|j]]]]; auto 6.
    do 4 right. exists j. reflexivity. }
  assert (Hlate : forall j,
             Retry.exec false (Retry.mount false os p loaded)
                        (repeat (Retry.Settle p) (4 + j)
                         ++ Retry.Unmount :: repeat (Retry.Settle p) 4)%list
             = Retry.exec false (Retry.mount false os p loaded)
                          (repeat (Retry.Settle p) 4
                           ++ Retry.Unmount :: repeat (Retry.Settle p) 4)%list).
  { intros j. rewrite repeat_app. unfold Retry.exec in *.
    rewrite !fold_left_app. rewrite (Hidle j _ Hdone). reflexivity. }
  cbv zeta.
  destruct Hk as [Hk|[Hk|[Hk|[Hk|[j Hk]]]]]; subst k; rewrite ?Hlate;
    clear Hidle Hdone Hlate; destruct p as [rq sup en sta];
    (destruct loaded as [m0|]; [|destruct rq as [[m0|]|e]]);
    (destruct sup as [[|]|e1]; [destruct en as [[|]|e2];
                                [destruct sta as [[]|e3]| |]| |]);
    repeat split.
Qed.

(** X11.  In the simple variant, when the module could not be loaded
    ([require] threw, or the module has no default export), [checkNfc] ends
    in its first turn with the module-not-available error; no provider
    method is ever called, and the cleanup requests no cancel. *)
Theorem simple_missing_module :
  forall (p : Provider) (r : Settled (option Manager))
         (ins : list Simple.Input),
    Simple.load_module r = None ->
    let s := Simple.mkNfcState false false
                               (Some Simple.no_module_message) false in
    let m := Simple.exec (Simple.mount p r) ins in
    Simple.task (Simple.mount p r) = None
    /\ Simple.task m = None
    /\ Simple.nfcState (Simple.world m) = s
    /\ states_of (Simple.log (Simple.world m)) = [s]
    /\ calls_of (Simple.log (Simple.world m)) = []
    /\ cancels_of (Simple.log (Simple.world m)) = O.
Proof.
  intros p r ins Hr s m.
  assert (H0 : Simple.mount p r
               = Simple.mkMachine
                   (Simple.mkWorld None s false [EvSetNfcState s]) None).
  { unfold Simple.mount, Simple.initial_world. rewrite Hr. reflexivity. }
  assert (H : m = Simple.mount p r
              \/ m = Simple.mkMachine
                       (Simple.mkWorld None s true [EvSetNfcState s]) None).
  { subst m. rewrite H0. clear H0.
    induction ins as [|i ins IH] using rev_ind; [left; reflexivity|].
    unfold Simple.exec in *. rewrite fold_left_app. cbn [fold_left].
    destruct IH as [->| ->]; destruct i; cbn; auto. }
  rewrite H0 in *. destruct H as [->| ->]; cbn; repeat split.
Qed.

Lemma simple_missing_module_witness :
  let s := Simple.mkNfcState false false
                             (Some Simple.no_module_message) false in
  let m := Simple.exec
             (Simple.mount ready_provider (Rejected (Error "no such module")))
             [Simple.Settle ready_provider; Simple.Unmount] in
  Simple.task
    (Simple.mount ready_provider (Rejected (Error "no such module"))) = None
  /\ Simple.task m = None
  /\ Simple.nfcState (Simple.world m) = s
  /\ states_of (Simple.log (Simple.world m)) = [s]
  /\ calls_of (Simple.log (Simple.world m)) = []
  /\ cancels_of (Simple.log (Simple.world m)) = O.
Proof.
  apply (simple_missing_module
           ready_provider (Rejected (Error "no such module"))
           [Simple.Settle ready_provider; Simple.Unmount]).
  reflexivity.
Defined.

(** Every run of a mounted probe makes one state update. *)
Lemma probe_updates (b : nat) :
  forall (env : nat -> Provider) (i : nat) (w : Retry.World),
    RetrySpec.fresh w ->
    Retry.retryCount w = Retry.maxRetries - Z.of_nat b ->
    length (states_of (Retry.log (Retry.probe false b env i w)))
    = (length (states_of (Retry.log w)) + 1
       + RetrySpec.init_failures b (Retry.NfcManager w) env i)%nat.
Proof.
  induction b as [|b IH]; intros env i w Hw Hrc.
  - destruct (RetryFacts.attempt_facts (env i) Hw)
      as (_ & _ & _ & _ & Hs & _ & _).
    assert (Hp : Retry.probe false 0 env i w = Retry.attempt false (env i) w)
      by (cbn; destruct (Retry.timers (Retry.attempt false (env i) w));
          reflexivity).
    rewrite Hp, Hs, length_app. cbn. lia.
  - destruct (RetryFacts.attempt_facts (env i) Hw)
      as (Hmgr & Hini & Hm & _ & Hs & _ & Hretry).
    replace (Retry.retryCount w <? Retry.maxRetries) with true in Hretry
      by (symmetry; apply Z.ltb_lt; lia).
    rewrite andb_true_r in Hretry.
    cbn [RetrySpec.init_failures].
    destruct (is_init_failure
                (RetrySpec.verdict (Retry.NfcManager w) (env i))) eqn:Hv;
      destruct Hretry as (Hrc' & Ht & _).
    + assert (Hp : Retry.probe false (S b) env i w
                   = Retry.probe false b env (S i)
                                 (Retry.fire (Retry.attempt false (env i) w)))
        by (cbn [Retry.probe]; rewrite Ht; reflexivity).
      rewrite Hp, IH.
      * cbn [Retry.fire Retry.set_timers Retry.log Retry.NfcManager].
        rewrite Hs, Hmgr, length_app. cbn. lia.
      * apply RetryFacts.fresh_fire; eauto.
      * cbn [Retry.fire Retry.set_timers Retry.retryCount].
        rewrite Hrc'. lia.
    + assert (Hp : Retry.probe false (S b) env i w
                   = Retry.attempt false (env i) w)
        by (cbn [Retry.probe]; rewrite Ht; reflexivity).
      rewrite Hp, Hs, length_app. cbn. lia.
Qed.

(** X12.  Every run of [checkNfc] in a mounted component makes exactly one
    state update: the probe of the retry variant makes one more update than
    it schedules retries, the simple variant makes one, and neither ever
    ends with [loading] true. *)
Theorem every_run_sets_the_state_once :
  (forall (expoGo : bool) (os : string) (env : nat -> Provider)
          (loaded : option Manager),
      let w := Retry.run expoGo os env loaded in
      length (states_of (Retry.log w))
      = S (length (delays_of (Retry.log w)))
      /\ Retry.loading (Retry.nfcState w) = false)
  /\ (forall (p : Provider) (r : Settled (option Manager)),
      let w := Simple.run p r in
      states_of (Simple.log w) = [Simple.nfcState w]
      /\ Simple.loading (Simple.nfcState w) = false).
Proof.
  split.
  - intros [|] os env loaded; [split; reflexivity|].
    destruct (RetryFacts.run_facts os env loaded)
      as (_ & Hd & Hs & _ & _ & _).
    cbv zeta. rewrite Hd, Hs, repeat_length. split; [|reflexivity].
    unfold Retry.run.
    rewrite probe_updates;
      [reflexivity | apply RetryFacts.fresh_initial | reflexivity].
  - intros p r.
    destruct (SimpleFacts.simple_attempt_facts p (Simple.initial_world r))
      as (Hn & Hs & _).
    unfold Simple.run. cbv zeta. rewrite Hs, Hn. split; reflexivity.
Qed.

(** X13.  The probe takes the restricted-host path, ending in its first
    turn, exactly in a development build whose
    [global.expo.modules.constants.executionEnvironment] is "storeClient";
    a missing link of that chain is not an error and leaves the host
    unrestricted. *)
Theorem restricted_exactly_in_expo_go :
  forall (DEV : bool) (g : Host.Global) (os : string) (p : Provider)
         (loaded : option Manager),
    Retry.task (Retry.mount (Host.isExpoGo DEV g) os p loaded) = None
    <-> DEV = true /\ Host.environment_of g = Some "storeClient".
Proof.
  intros DEV g os p loaded.
  assert (Hgo : Host.isExpoGo DEV g = true
                <-> DEV = true /\ Host.environment_of g = Some "storeClient").
  { unfold Host.isExpoGo, Host.is_storeClient.
    destruct DEV; cbn; [|split; [discriminate | intros [H _]; discriminate]].
    destruct (Host.environment_of g) as [s|];
      [|split; [discriminate | intros [_ H]; discriminate]].
    rewrite String.eqb_eq. split.
    - intros ->. auto.
    - intros [_ [= ->]]. reflexivity. }
  rewrite <- Hgo.
  destruct (Host.isExpoGo DEV g).
  - split; reflexivity.
  - split; [|discriminate].
    destruct p as [rq sup en sta].
    destruct loaded as [m0|]; [|destruct rq as [[m0|]|e]]; discriminate.
Qed.

(** X14.  When the module-level [NfcManager] is null and the manager cannot
    be obtained, a run of the retry variant calls no provider method and
    leaves [NfcManager] null, so the next run calls [require] again.  If
    the module has no default export the error shown is "Failed to
    initialize NFC Manager"; if [require] throws, it is the message of the
    error thrown, or "Failed to check NFC support" when that message is
    empty. *)
Theorem manager_acquisition_failures :
  forall (p : Provider) (w : Retry.World),
    RetrySpec.fresh w ->
    Retry.NfcManager w = None ->
    let w' := Retry.attempt false p w in
    (require_result p = Resolved None ->
     Retry.error (Retry.nfcState w') = Some "Failed to initialize NFC Manager"
     /\ calls_of (Retry.log w') = calls_of (Retry.log w)
     /\ Retry.NfcManager w' = None)
    /\ (forall e,
        require_result p = Rejected e ->
        Retry.error (Retry.nfcState w')
        = Some (if String.eqb (message e) ""
                then "Failed to check NFC support"
                else message e)
        /\ calls_of (Retry.log w') = calls_of (Retry.log w)
        /\ Retry.NfcManager w' = None).
Proof.
  intros p w Hw Hn.
  destruct (RetryFacts.attempt_facts p Hw) as (Hm & _ & _ & Hs & _ & Hc & _).
  cbv zeta. rewrite Hs, Hc, Hm, Hn.
  unfold RetrySpec.verdict, RetrySpec.acquired, RetrySpec.cached, first_stop.
  split.
  - intros ->. cbn. rewrite app_nil_r. auto.
  - intros e ->. cbn. rewrite app_nil_r. repeat split.
    destruct e as [[|c rest]]; reflexivity.
Qed.

Lemma manager_acquisition_failures_witness :
  let p := mkProvider (Rejected (Error "")) (Resolved true) (Resolved true)
                      (Resolved tt) in
  let w := Retry.initial_world false "android" None in
  let w' := Retry.attempt false p w in
  Retry.error (Retry.nfcState w') = Some "Failed to check NFC support"
  /\ calls_of (Retry.log w') = calls_of (Retry.log w)
  /\ Retry.NfcManager w' = None.
Proof.
  apply (proj2 (manager_acquisition_failures
                  (mkProvider (Rejected (Error "")) (Resolved true)
                              (Resolved true) (Resolved tt))
                  (w := Retry.initial_world false "android" None)
                  (RetryFacts.fresh_initial false "android" None)
                  eq_refl)
               (Error "")).
  reflexivity.
Defined.
